(** * show_functional_structure.py: a shallow embedding

    The script prints a filtered, indented view of a directory tree
    ([show_clean_structure]) followed by a one-level, unfiltered summary
    ([show_summary]).  Both rely on [should_include], a pure predicate on
    paths.

    Conventions of the embedding.
    - Python [str] values are modelled as [string], i.e. as the sequence of
      their UTF-8 bytes.  Equality, [endswith], slicing from an index found
      by [rfind] and the code-point order used by [sorted] all agree with
      their byte-level counterparts on UTF-8 text.
    - A [pathlib.Path] is the pair of its anchor (drive and root, empty for a
      relative path) and the list of its remaining segments.
    - The operating system is a parameter: [is_dir], [is_file], the result of
      [rglob] and the result of listing a directory are Section variables.
    - [print] appends to a trace.  Each trace entry carries the text of the
      line and, for entry lines, the path the line was printed for. *)

From Stdlib Require Import Ascii String.
From stdpp Require Import base decidable option list sorting gmap sets strings.

Set Default Proof Using "Type".

(** ** Strings *)

Module Str.

(** [s.startswith(prefix)] *)
Definition startswith (s pre : string) : bool := String.prefix pre s.

(** [s[i:]] for a non-negative index [i] *)
Fixpoint slice_from (i : nat) (s : string) : string :=
  match i, s with
  | O, _ => s
  | S _, EmptyString => EmptyString
  | S i', String _ s' => slice_from i' s'
  end.

(** [s.endswith(suffix)]: the last [len(suffix)] characters of [s] are
    [suffix]. *)
Definition endswith (s suf : string) : bool :=
  let n := String.length s in
  let m := String.length suf in
  (m <=? n)%nat && String.eqb (slice_from (n - m) s) suf.

(** [s.rfind(c)] for a one-character needle; [None] stands for [-1]. *)
Fixpoint rfind (c : ascii) (s : string) : option nat :=
  match s with
  | EmptyString => None
  | String a s' =>
      match rfind c s' with
      | Some i => Some (S i)
      | None => if Ascii.eqb a c then Some O else None
      end
  end.

(** [s * n] *)
Fixpoint repeat (s : string) (n : nat) : string :=
  match n with
  | O => EmptyString
  | S n' => s +:+ repeat s n'
  end.

End Str.

(** ** Paths *)

Record Path := mkPath { anchor : string; tail : list string }.

Global Instance Path_eq_dec : EqDecision Path.
Proof. solve_decision. Defined.

Global Instance Path_countable : Countable Path.
Proof.
  refine (inj_countable' (fun p => (anchor p, tail p))
                         (fun q => mkPath q.1 q.2) _).
  by intros [].
Defined.

(** [path.parts] *)
Definition parts (p : Path) : list string :=
  if decide (anchor p = "") then tail p else anchor p :: tail p.

(** [path.name]: the final segment, or the empty string when there is none *)
Definition name (p : Path) : string := List.last (tail p) "".

(** [path.suffix]: the last dot-separated extension of the name; a leading
    or a trailing dot does not start a suffix. *)
Definition suffix (p : Path) : string :=
  let n := name p in
  match Str.rfind "." n with
  | Some i =>
      if (0 <? i)%nat && (i <? String.length n - 1)%nat
      then Str.slice_from i n else ""
  | None => ""
  end.

(** [path.parent]; the parent of a path without segments is the path itself *)
Definition parent (p : Path) : Path :=
  mkPath (anchor p) (removelast (tail p)).

(** [path / rel] for a list of plain segments *)
Definition join (p : Path) (rel : list string) : Path :=
  mkPath (anchor p) (tail p ++ rel).

(** ** The filter *)

Definition exclude_dirs : gset string :=
  list_to_set
    [ "node_modules"; ".next"; ".git"; ".firebase"; ".vercel";
      ".github"; "__pycache__"; "dist"; "build"; ".cache";
      ".vscode"; ".idea"; ".DS_Store"; "coverage"; ".yarn"; "dev-tools";
      "supabase"; "database" ].

Definition exclude_files : gset string :=
  list_to_set
    [ ".DS_Store"; "Thumbs.db"; ".gitignore"; ".gitattributes";
      ".env"; ".env.local"; ".env.production"; "package-lock.json";
      "yarn.lock"; "pnpm-lock.yaml"; "*.log"; "*.tmp" ].

Definition exclude_extensions : gset string :=
  list_to_set
    [ ".map"; ".log"; ".tmp"; ".cache"; ".ico"; ".png"; ".jpg"; ".svg" ].

Definition auto_generated_files : gset string :=
  list_to_set
    [ "asset-manifest.json"; "robots.txt"; "manifest.json";
      "favicon.ico"; "logo192.png"; "logo512.png"; "*.css.map";
      "*.js.map"; "LICENSE.txt"; "reportWebVitals.ts";
      "setupTests.ts"; "App.test.tsx"; "react-app-env.d.ts" ].

(** The test made on one pattern inside the loop over
    [auto_generated_files]: [true] when the loop body returns. *)
Definition pattern_matches (pattern nm : string) : bool :=
  if Str.startswith pattern "*"
  then Str.endswith nm (Str.slice_from 1 pattern)
  else String.eqb nm pattern.

(** The loop [for pattern in auto_generated_files]: [Some false] when some
    iteration executes [return False], [None] when the loop runs to its
    end.  Python iterates a set in an order of its own; the result does not
    depend on it ([scan_patterns_perm]). *)
Fixpoint scan_patterns (nm : string) (patterns : list string) : option bool :=
  match patterns with
  | [] => None
  | pattern :: rest =>
      if pattern_matches pattern nm then Some false
      else scan_patterns nm rest
  end.

Definition should_include (path : Path) : bool :=
  if existsb (fun part => bool_decide (part ∈ exclude_dirs)) (parts path)
  then false
  else if bool_decide (name path ∈ exclude_files) then false
  else if bool_decide (suffix path ∈ exclude_extensions) then false
  else match scan_patterns (name path) (elements auto_generated_files) with
       | Some r => r
       | None =>
           if bool_decide ("build" ∈ parts path)
              || bool_decide ("static" ∈ parts path)
           then false
           else true
       end.

(** ** Comparison and [sorted] *)

(** The part of Python's rich-comparison protocol that [sorted] uses: a
    boolean [<]. *)
Class Ordered (K : Type) := ltb : K -> K -> bool.

(** The comparison is a strict total order. *)
Class OrderedLaws (K : Type) `{Ordered K} := {
  ltb_irrefl : forall x : K, ltb x x = false;
  ltb_trans : forall x y z : K,
    ltb x y = true -> ltb y z = true -> ltb x z = true;
  ltb_total : forall x y : K, ltb x y = true \/ x = y \/ ltb y x = true
}.

(** [(b1, s1) < (b2, s2)] on tuples: the first components decide unless they
    are equal; [False < True]. *)
Definition pair_ltb (k1 k2 : bool * string) : bool :=
  if Bool.eqb k1.1 k2.1 then String.ltb k1.2 k2.2
  else negb k1.1 && k2.1.

(** [l1 < l2] on sequences of strings: the first differing position decides,
    and a proper prefix is smaller. *)
Fixpoint list_ltb (l1 l2 : list string) : bool :=
  match l1, l2 with
  | _, [] => false
  | [], _ :: _ => true
  | x :: l1', y :: l2' =>
      if String.eqb x y then list_ltb l1' l2' else String.ltb x y
  end.

Global Instance string_ordered : Ordered string := String.ltb.
Global Instance pair_ordered : Ordered (bool * string) := pair_ltb.
Global Instance list_ordered : Ordered (list string) := list_ltb.

Section Sorted.
Context {A K : Type} `{Ordered K} (key : A -> K).

(** Insert [x] in front of the first element whose key is not smaller. *)
Fixpoint insert_by (x : A) (l : list A) : list A :=
  match l with
  | [] => [x]
  | y :: l' => if ltb (key y) (key x) then y :: insert_by x l' else x :: l
  end.

(** [sorted(l, key=key)]: ascending and stable. *)
Definition sorted (l : list A) : list A := foldr insert_by [] l.

(** [x] may stand before [y] in a sorted list. *)
Definition key_le (x y : A) : Prop := ltb (key y) (key x) = false.
End Sorted.

(** ** Output and exceptions *)

Inductive event :=
  | Line (text : string)
  | DirLine (p : Path) (text : string)
  | FileLine (p : Path) (text : string).

Global Instance event_eq_dec : EqDecision event.
Proof. solve_decision. Defined.

Definition text_of (e : event) : string :=
  match e with Line t | DirLine _ t | FileLine _ t => t end.

(** What standard output receives: one string per call of [print]. *)
Definition stdout (tr : list event) : list string := text_of <$> tr.

(** The directories for which [tr] contains a directory line. *)
Definition dir_lines (tr : list event) : list Path :=
  omap (fun e => match e with DirLine p _ => Some p | _ => None end) tr.

(** The path an entry line was printed for. *)
Definition subject (e : event) : option Path :=
  match e with
  | Line _ => None
  | DirLine p _ | FileLine p _ => Some p
  end.

(** Exceptions: [PermissionError], and [Exception] for every other subclass
    of Python's [Exception]; both carry [str(e)]. *)
Inductive exn :=
  | PermissionError (msg : string)
  | Exception (msg : string).

Definition str_exn (e : exn) : string :=
  match e with PermissionError m | Exception m => m end.

Inductive outcome (A : Type) :=
  | Returned (a : A)
  | Raised (e : exn)
  | Diverged.
Arguments Returned {A} a.
Arguments Raised {A} e.
Arguments Diverged {A}.

(** A computation that prints, and then returns, raises or loops forever. *)
Definition M (A : Type) : Type := list event * outcome A.

Definition ret {A} (a : A) : M A := ([], Returned a).
Definition raise {A} (e : exn) : M A := ([], Raised e).
Definition diverge {A} : M A := ([], Diverged).
Definition print (e : event) : M unit := ([e], Returned tt).

Definition bind {A B} (m : M A) (f : A -> M B) : M B :=
  match m.2 with
  | Returned a => (m.1 ++ (f a).1, (f a).2)
  | Raised e => (m.1, Raised e)
  | Diverged => (m.1, Diverged)
  end.

(** [try: m except ...: handler]; [handler e = None] when no [except] clause
    matches [e]. *)
Definition try_except {A} (m : M A) (handler : exn -> option (M A)) : M A :=
  match m.2 with
  | Raised e =>
      match handler e with
      | Some h => (m.1 ++ h.1, h.2)
      | None => m
      end
  | _ => m
  end.

Notation "x <- m ;; k" := (bind m (fun x => k))
  (at level 100, m at next level, right associativity).
Notation "m ;;; k" := (bind m (fun _ => k))
  (at level 100, right associativity).

(** [for x in l: body x] *)
Fixpoint for_each {A} (l : list A) (body : A -> M unit) : M unit :=
  match l with
  | [] => ret tt
  | x :: l' => body x ;;; for_each l' body
  end.

(** ** Icons and banners *)

Definition nl : string := String "010" "".
Definition icon_folder : string :=
  String "240" (String "159" (String "147" (String "129" ""))).
Definition icon_open_folder : string :=
  String "240" (String "159" (String "147" (String "130" ""))).
Definition icon_file : string :=
  String "240" (String "159" (String "147" (String "132" ""))).
Definition icon_magnifier : string :=
  String "240" (String "159" (String "148" (String "141" ""))).

Definition rule : string := Str.repeat "=" 60.

(** ** The tree printer *)

Fixpoint strip_prefix (pre l : list string) : option (list string) :=
  match pre, l with
  | [], _ => Some l
  | _ :: _, [] => None
  | x :: pre', y :: l' => if decide (x = y) then strip_prefix pre' l' else None
  end.

(** [p.relative_to(other).parts]; [None] when [relative_to] raises
    [ValueError] because [p] does not lie under [other]. *)
Definition relative_to (p other : Path) : option (list string) :=
  if decide (anchor p = anchor other) then strip_prefix (tail other) (tail p)
  else None.

(** [len(p.relative_to(base_path).parts)] *)
Definition level_of (p base_path : Path) : M nat :=
  match relative_to p base_path with
  | Some rel => ret (length rel)
  | None => raise (Exception "ValueError")
  end.

(** ['  ' * (level - 1)]; a count that is not positive gives the empty
    string. *)
Definition indent (level : nat) : string := Str.repeat "  " (level - 1).

Definition tree_banner : list event :=
  [ Line (icon_folder +:+ " PROJECT STRUCTURE (Source & Config Files Only):");
    Line rule ].

(** ** The lines of the summary *)

(** The exclusion list of the summary, local to [show_summary] in the source
    (where it is also called [exclude_dirs]). *)
Definition summary_exclude_dirs : gset string :=
  list_to_set
    [ "node_modules"; ".git"; ".next"; "dist"; "build"; ".cache";
      ".vscode"; ".idea" ].

Definition summary_banner : list event :=
  [ Line (nl +:+ icon_magnifier +:+ " ACTUAL DIRECTORY CONTENTS (No filtering):");
    Line rule ].

Definition permission_denied : event := Line "  (Permission denied)".
Definition no_subdirectories : event := Line (nl +:+ "No subdirectories found.").

(** The header line of a subdirectory in the summary. *)
Definition item_event (item : Path) : event :=
  DirLine item (nl +:+ icon_open_folder +:+ " " +:+ name item +:+ "/").

(** The line of the outer [except] clause. *)
Definition error_event (e : exn) : event :=
  Line ("Error reading directory: " +:+ str_exn e).

(** The paths [p / n] for the names [n] found in [p]. *)
Definition children (p : Path) (names : list string) : list Path :=
  (fun n => join p [n]) <$> names.

(** ** The two printers *)

Section Printers.
Variables is_dir is_file : Path -> bool.
(** The names in a directory, in the order the operating system yields
    them, or the exception raised when it is read. *)
Variable listdir : Path -> exn + list string.

(** One iteration of the [while] loop of [show_clean_structure]. *)
Definition note_dir (current : Path) (st : list Path * gset Path)
  : list Path * gset Path :=
  if is_dir current && bool_decide (current ∉ st.2)
  then (st.1 ++ [current], {[current]} ∪ st.2)
  else st.

(** [while current != base_path: ...; current = current.parent], with the
    state [(dirs_to_show, shown_dirs)]; [None] when [fuel] iterations do not
    reach [base_path]. *)
Fixpoint climb (fuel : nat) (base_path current : Path)
    (st : list Path * gset Path) : option (list Path * gset Path) :=
  if decide (current = base_path) then Some st
  else match fuel with
       | O => None
       | S fuel' => climb fuel' base_path (parent current) (note_dir current st)
       end.

Definition print_dir (base_path dir_path : Path) : M unit :=
  level <- level_of dir_path base_path ;;
  print (DirLine dir_path
           (indent level +:+ icon_folder +:+ " " +:+ name dir_path +:+ "/")).

Definition print_file (base_path path : Path) : M unit :=
  level <- level_of path base_path ;;
  print (FileLine path (indent level +:+ icon_file +:+ " " +:+ name path)).

(** The body of the [for] loop for a path that passed the filter; returns
    the new [shown_dirs].  A path has no more than [length (tail path)]
    distinct ancestors, so the [while] loop either stops within that many
    iterations or never. *)
Definition visit (base_path path : Path) (shown_dirs : gset Path)
  : M (gset Path) :=
  match climb (length (tail path)) base_path path ([], shown_dirs) with
  | None => diverge
  | Some (dirs_to_show, shown_dirs') =>
      for_each (reverse dirs_to_show) (print_dir base_path) ;;;
      (if is_file path then print_file base_path path else ret tt) ;;;
      ret shown_dirs'
  end.

Fixpoint tree_loop (base_path : Path) (paths : list Path)
    (shown_dirs : gset Path) : M unit :=
  match paths with
  | [] => ret tt
  | path :: rest =>
      if should_include path
      then shown_dirs' <- visit base_path path shown_dirs ;;
           tree_loop base_path rest shown_dirs'
      else tree_loop base_path rest shown_dirs
  end.

(** [show_clean_structure], from the point where [base_path] is known;
    [rglob] is what [base_path.rglob('*')] yields, in the order it yields
    it.  [sorted] compares paths through their parts. *)
Definition show_clean_structure (base_path : Path) (rglob : list Path)
  : M unit :=
  for_each tree_banner print ;;;
  tree_loop base_path (sorted parts rglob) ∅.

(** [p.iterdir()]: the children of [p], or the exception of the listing *)
Definition iterdir (p : Path) : M (list Path) :=
  match listdir p with
  | inl e => raise e
  | inr names => ret (children p names)
  end.

Definition print_sub_item (sub_item : Path) : M unit :=
  if is_dir sub_item
  then print (DirLine sub_item
                ("  " +:+ icon_folder +:+ " " +:+ name sub_item +:+ "/"))
  else print (FileLine sub_item ("  " +:+ icon_file +:+ " " +:+ name sub_item)).

(** [lambda x: (not x.is_dir(), x.name)] *)
Definition sub_item_key (x : Path) : bool * string :=
  (negb (is_dir x), name x).

(** The inner [try] block. *)
Definition show_children (item : Path) : M unit :=
  sub_items <- iterdir item ;;
  for_each (sorted sub_item_key sub_items) print_sub_item.

Definition print_item (item : Path) : M unit := print (item_event item).

(** The body of the loop over the subdirectories. *)
Definition show_item (item : Path) : M unit :=
  print_item item ;;;
  try_except (show_children item)
    (fun e => match e with
              | PermissionError _ => Some (print permission_denied)
              | Exception _ => None
              end).

(** [[item for item in base_path.iterdir()
      if item.is_dir() and item.name not in exclude_dirs]] *)
Definition select_items (all : list Path) : list Path :=
  filter (fun item => is_dir item = true /\ name item ∉ summary_exclude_dirs)
         all.

(** The outer [try] block. *)
Definition summary_body (base_path : Path) : M unit :=
  all <- iterdir base_path ;;
  match select_items all with
  | [] => print no_subdirectories
  | items => for_each (sorted name items) show_item
  end.

Definition show_summary (base_path : Path) : M unit :=
  for_each summary_banner print ;;;
  try_except (summary_body base_path)
    (fun e => Some (print (error_event e))).

End Printers.

(** ** Notions used in the statements *)

(** The wording of the pattern rule: a pattern that begins with a star
    matches the names that end with the rest of the pattern, any other
    pattern matches the name equal to it. *)
Definition matches_by_rule (pattern nm : string) : Prop :=
  match pattern with
  | String "*" rest => exists pre, nm = pre +:+ rest
  | _ => nm = pattern
  end.

(** The line printed for a child of a subdirectory in the summary. *)
Definition sub_item_event (is_dir : Path -> bool) (sub_item : Path) : event :=
  if is_dir sub_item
  then DirLine sub_item ("  " +:+ icon_folder +:+ " " +:+ name sub_item +:+ "/")
  else FileLine sub_item ("  " +:+ icon_file +:+ " " +:+ name sub_item).

(** Two results of listing a directory that differ at most in the order of
    the names. *)
Definition same_listing (r1 r2 : exn + list string) : Prop :=
  match r1, r2 with
  | inl e1, inl e2 => e1 = e2
  | inr l1, inr l2 => l1 ≡ₚ l2
  | _, _ => False
  end.

(** Alphabetical order of the names of paths. *)
Definition name_le (x y : Path) : Prop := String.leb (name x) (name y) = true.

(** ** A small file system

    [/proj] holds the directories [a] (files [x], [y]), [b] (empty), [src]
    (files [main.py], [app.css.map] and the directory [util] with
    [helper.py]), [node_modules] (directory [pkg] with [index.js]), [secret]
    (which may not be listed) and the file [README.md]. *)
Module Demo.

Definition base : Path := mkPath "/" ["proj"].

Definition dirs : list Path :=
  [ join base ["a"]; join base ["b"]; join base ["src"];
    join base ["src"; "util"]; join base ["node_modules"];
    join base ["node_modules"; "pkg"]; join base ["secret"] ].

Definition files : list Path :=
  [ join base ["a"; "x"]; join base ["a"; "y"]; join base ["src"; "main.py"];
    join base ["src"; "app.css.map"]; join base ["src"; "util"; "helper.py"];
    join base ["node_modules"; "pkg"; "index.js"]; join base ["README.md"] ].

Definition is_dir (p : Path) : bool := bool_decide (p ∈ dirs).
Definition is_file (p : Path) : bool := bool_decide (p ∈ files).

Definition denied : exn := PermissionError "[Errno 13] Permission denied".

Definition listdir (p : Path) : exn + list string :=
  if decide (p = base)
  then inr ["src"; "b"; "README.md"; "secret"; "a"; "node_modules"]
  else if decide (p = join base ["a"]) then inr ["y"; "x"]
  else if decide (p = join base ["b"]) then inr []
  else if decide (p = join base ["src"])
  then inr ["main.py"; "util"; "app.css.map"]
  else if decide (p = join base ["src"; "util"]) then inr ["helper.py"]
  else if decide (p = join base ["node_modules"]) then inr ["pkg"]
  else if decide (p = join base ["node_modules"; "pkg"]) then inr ["index.js"]
  else if decide (p = join base ["secret"]) then inl denied
  else inl (Exception "[Errno 20] Not a directory").

(** The same file system once [secret] may be listed. *)
Definition listdir_open (p : Path) : exn + list string :=
  if decide (p = join base ["secret"]) then inr ["key.pem"] else listdir p.

(** The same directories, listed in another order. *)
Definition listdir' (p : Path) : exn + list string :=
  match listdir p with
  | inl e => inl e
  | inr names => inr (reverse names)
  end.

(** What [rglob] yields, in one order and in another. *)
Definition rglob : list Path := files ++ dirs.
Definition rglob' : list Path := reverse dirs ++ files.

(** An empty directory. *)
Definition empty : Path := join base ["b"].

End Demo.

(** [a] is a proper ancestor of [p]: [a in p.parents]. *)
Definition is_ancestor (a p : Path) : Prop :=
  exists rel, rel <> [] /\ p = join a rel.

(** The number of segments of a path. *)
Definition depth (p : Path) : nat := length (tail p).

(** The non-empty prefixes of a relative path, shortest first. *)
Fixpoint prefixes (rel : list string) : list (list string) :=
  match rel with
  | [] => []
  | x :: rel' => [x] :: ((fun r => x :: r) <$> prefixes rel')
  end.

(** The paths from [base_path / rel] up to, and without, [base_path]:
    what [current] runs through in the [while] loop. *)
Definition chain (base_path : Path) (rel : list string) : list Path :=
  join base_path <$> reverse (prefixes rel).

(** The state of the [while] loop after [current] ran through [ch]. *)
Definition note_dirs (is_dir : Path -> bool) (ch : list Path)
    (st : list Path * gset Path) : list Path * gset Path :=
  foldl (fun st d => note_dir is_dir d st) st ch.

(** The line printed for a directory, and for a file, of the tree. *)
Definition dir_event (base_path d : Path) : event :=
  DirLine d (indent (depth d - depth base_path)
             +:+ icon_folder +:+ " " +:+ name d +:+ "/").

Definition file_event (base_path f : Path) : event :=
  FileLine f (indent (depth f - depth base_path)
              +:+ icon_file +:+ " " +:+ name f).

(** Every entry line of [tr] comes after the directory lines of the
    directories above its path (and below [base_path]), unless those are
    already in [seen]. *)
Definition ancestors_first (is_dir : Path -> bool) (base_path : Path)
    (seen : gset Path) (tr : list event) : Prop :=
  forall pre e post p a,
    tr = pre ++ e :: post -> subject e = Some p ->
    is_ancestor base_path a -> is_ancestor a p -> is_dir a = true ->
    a ∈ seen \/ a ∈ dir_lines pre.

(** The files for which [tr] contains a file line. *)
Definition file_lines (tr : list event) : list Path :=
  omap (fun e => match e with FileLine p _ => Some p | _ => None end) tr.

(** [d] lies below [base_path] and is [p] or one of its ancestors: what the
    [while] loop started at [p] runs through. *)
Definition on_path (base_path d p : Path) : Prop :=
  is_ancestor base_path d /\ (d = p \/ is_ancestor d p).

(** An entry line of the tree, as printed for the path [base_path / rel]:
    two spaces per level below the first, an icon, the last segment, and a
    slash after a directory. *)
Definition tree_entry (is_dir is_file : Path -> bool) (base_path : Path)
    (e : event) : Prop :=
  exists rel, rel <> [] /\
    ((e = DirLine (join base_path rel)
            (Str.repeat "  " (length rel - 1) +:+ icon_folder +:+ " "
             +:+ List.last rel ""%string +:+ "/") /\
      is_dir (join base_path rel) = true) \/
     (e = FileLine (join base_path rel)
            (Str.repeat "  " (length rel - 1) +:+ icon_file +:+ " "
             +:+ List.last rel ""%string) /\
      is_file (join base_path rel) = true /\
      should_include (join base_path rel) = true)).

(** The subdirectories for which [tr] contains a header line of the
    summary. *)
Definition header_lines (tr : list event) : list Path :=
  omap (fun e => match e with
                 | DirLine p _ => if decide (e = item_event p) then Some p else None
                 | _ => None
                 end) tr.

(** ** The entry point *)


Section Main.
Variables is_dir is_file : Path -> bool.
Variable listdir : Path -> exn + list string.
(** [Path(__file__).parent], the constructor [Path(...)] on a string, and
    what [rglob('*')] yields for a base directory. *)
Variable script_dir : Path.
Variable Path_of : string -> Path.
Variable rglob_of : Path -> list Path.



End Main.

(** * Properties of the filter *)

(** Decide a closed, decidable proposition by evaluation. *)
Ltac by_compute := apply (bool_decide_unpack _); vm_cast_no_check I.

Section StringFacts.

Lemma string_length_app (s1 s2 : string) :
  String.length (s1 +:+ s2) = String.length s1 + String.length s2.
Proof. induction s1 as [|a s1 IH]; simpl; [done|]. by rewrite IH. Qed.

Lemma slice_from_app (pre s : string) :
  Str.slice_from (String.length pre) (pre +:+ s) = s.
Proof. induction pre as [|a pre IH]; simpl; [by destruct s | done]. Qed.

Lemma slice_from_split (i : nat) (s : string) :
  exists pre, s = pre +:+ Str.slice_from i s.
Proof.
  revert s. induction i as [|i IH]; intros s.
  - by exists ""%string.
  - destruct s as [|a s]; simpl; [by exists ""%string|].
    destruct (IH s) as [pre Hpre]. exists (String a pre).
    change (String a s = String a (pre +:+ Str.slice_from i s)).
    by rewrite <- Hpre.
Qed.

Lemma endswith_spec (s suf : string) :
  Str.endswith s suf = true <-> exists pre, s = pre +:+ suf.
Proof.
  unfold Str.endswith. rewrite andb_true_iff, Nat.leb_le, String.eqb_eq.
  split.
  - intros [_ <-]. apply slice_from_split.
  - intros [pre ->]. rewrite string_length_app. split; [lia|].
    replace (String.length pre + String.length suf - String.length suf)
      with (String.length pre) by lia.
    apply slice_from_app.
Qed.

Lemma startswith_star (pattern : string) :
  Str.startswith pattern "*" = true <-> exists rest, pattern = String "*" rest.
Proof.
  unfold Str.startswith. destruct pattern as [|a rest].
  - split; [done | by intros [? ?]].
  - change (String.prefix "*" (String a rest))
      with (match ascii_dec "*" a with
            | left _ => String.prefix "" rest
            | right _ => false
            end).
    destruct (ascii_dec "*" a) as [<-|Hne].
    + split; [by exists rest | by destruct rest].
    + split; [done | intros [? [= ? ?]]; by subst].
Qed.

End StringFacts.

Lemma pattern_matches_spec (pattern nm : string) :
  pattern_matches pattern nm = true <-> matches_by_rule pattern nm.
Proof.
  unfold pattern_matches, matches_by_rule.
  destruct (Str.startswith pattern "*") eqn:E.
  - apply startswith_star in E as [rest ->]. simpl. apply endswith_spec.
  - rewrite String.eqb_eq.
    destruct pattern as [|a rest]; [done|].
    destruct (decide (a = "*"%char)) as [->|Hne].
    + assert (Str.startswith (String "*" rest) "*" = true) as E'
        by (apply startswith_star; eauto).
      congruence.
    + destruct a as [[] [] [] [] [] [] [] []]; try done.
  Qed.

Lemma scan_patterns_None (nm : string) (patterns : list string) :
  scan_patterns nm patterns = None <->
  forall pattern, pattern ∈ patterns -> pattern_matches pattern nm = false.
Proof.
  induction patterns as [|pattern rest IH]; simpl.
  - split; [intros _ ? ?%elem_of_nil; done | done].
  - destruct (pattern_matches pattern nm) eqn:E.
    + split; [done|]. intros H. rewrite H in E; [done | left].
    + rewrite IH. split.
      * intros H q [->|?]%elem_of_cons; auto.
      * intros H q ?. apply H. by right.
Qed.

Lemma scan_patterns_cases (nm : string) (patterns : list string) :
  scan_patterns nm patterns = None \/ scan_patterns nm patterns = Some false.
Proof.
  induction patterns as [|pattern rest IH]; simpl; [by left|].
  destruct (pattern_matches pattern nm); [by right | done].
Qed.

Lemma scan_patterns_perm (nm : string) (patterns1 patterns2 : list string) :
  patterns1 ≡ₚ patterns2 ->
  scan_patterns nm patterns1 = scan_patterns nm patterns2.
Proof.
  intros Hperm.
  destruct (scan_patterns_cases nm patterns1) as [H1|H1],
           (scan_patterns_cases nm patterns2) as [H2|H2]; try congruence.
  - assert (scan_patterns nm patterns2 = None); [|congruence].
    rewrite scan_patterns_None in H1. apply scan_patterns_None.
    intros pattern Hin. apply H1. by rewrite Hperm.
  - assert (scan_patterns nm patterns1 = None); [|congruence].
    rewrite scan_patterns_None in H2. apply scan_patterns_None.
    intros pattern Hin. apply H2. by rewrite <- Hperm.
Qed.

(** The filter accepts a path exactly when none of its five rules fires. *)
Lemma should_include_true (path : Path) :
  should_include path = true <->
    (forall part, part ∈ parts path -> part ∉ exclude_dirs) /\
    (name path ∉ exclude_files) /\
    (suffix path ∉ exclude_extensions) /\
    (forall pattern, pattern ∈ auto_generated_files ->
       pattern_matches pattern (name path) = false) /\
    ("build" ∉ parts path) /\ ("static" ∉ parts path).
Proof.
  unfold should_include.
  destruct (existsb _ (parts path)) eqn:E1.
  { apply existsb_exists in E1 as (part & Hin & Hex).
    apply bool_decide_eq_true in Hex. apply list_elem_of_In in Hin.
    split; [done|]. intros (H & _). by destruct (H part). }
  assert (forall part, part ∈ parts path -> part ∉ exclude_dirs) as H1.
  { intros part Hin Hex.
    assert (existsb (fun part => bool_decide (part ∈ exclude_dirs)) (parts path)
            = true) as E; [|congruence].
    apply existsb_exists. exists part.
    split; [by apply list_elem_of_In | by apply bool_decide_eq_true]. }
  case_bool_decide as E2; [split; [done | tauto]|].
  case_bool_decide as E3; [split; [done | tauto]|].
  destruct (scan_patterns_cases (name path) (elements auto_generated_files))
    as [E4|E4]; rewrite E4.
  - rewrite scan_patterns_None in E4.
    assert (forall pattern, pattern ∈ auto_generated_files ->
              pattern_matches pattern (name path) = false) as H4.
    { intros pattern Hin. apply E4. by apply elem_of_elements. }
    do 2 case_bool_decide; simpl; split; try done; tauto.
  - split; [done|]. intros (_ & _ & _ & H4 & _).
    assert (scan_patterns (name path) (elements auto_generated_files) = None)
      as E; [|congruence].
    apply scan_patterns_None. intros pattern Hin. apply H4.
    by apply elem_of_elements.
Qed.

Lemma should_include_false (path : Path) :
  should_include path = false <->
    (exists part, part ∈ parts path /\ part ∈ exclude_dirs) \/
    name path ∈ exclude_files \/
    suffix path ∈ exclude_extensions \/
    (exists pattern, pattern ∈ auto_generated_files /\
       pattern_matches pattern (name path) = true) \/
    "build" ∈ parts path \/ "static" ∈ parts path.
Proof.
  rewrite <- not_true_iff_false, should_include_true. split.
  - intros Hn.
    destruct (decide (Exists (fun part => part ∈ exclude_dirs) (parts path)))
      as [(part & ? & ?)%Exists_exists|N1]; [left; eauto|].
    destruct (decide (name path ∈ exclude_files)); [tauto|].
    destruct (decide (suffix path ∈ exclude_extensions)); [tauto|].
    destruct (decide (Exists (fun pattern => pattern_matches pattern (name path) = true)
                        (elements auto_generated_files)))
      as [(pattern & ?%elem_of_elements & ?)%Exists_exists|N4];
      [do 3 right; left; eauto|].
    destruct (decide ("build" ∈ parts path)); [tauto|].
    destruct (decide ("static" ∈ parts path)); [tauto|].
    exfalso. apply Hn. repeat split; try assumption.
    + intros part ? ?. apply N1, Exists_exists. eauto.
    + intros pattern Hin. apply not_true_iff_false. intros ?.
      apply N4, Exists_exists. exists pattern. rewrite elem_of_elements.
      split; assumption.
  - intros [(part & ? & ?)|[?|[?|[(pattern & ? & Hm)|[?|?]]]]]
      (H1 & ? & ? & H4 & ? & ?); try contradiction.
    + by apply (H1 part).
    + rewrite H4 in Hm; [discriminate | assumption].
Qed.

Lemma parts_snoc (anch : string) (dirs : list string) (nm : string) :
  parts (mkPath anch (dirs ++ [nm])) = parts (mkPath anch dirs) ++ [nm].
Proof. unfold parts; simpl. by case_decide. Qed.

Lemma name_snoc (anch : string) (dirs : list string) (nm : string) :
  name (mkPath anch (dirs ++ [nm])) = nm.
Proof. unfold name; simpl. apply last_last. Qed.

(** C4: a path with a segment in the excluded-directory set, or with a
    segment equal to [build] or to [static], is excluded by the filter,
    whatever its name and suffix are. *)
Theorem excluded_segment_is_filtered (path : Path) (part : string) :
  part ∈ parts path ->
  part ∈ exclude_dirs \/ part = "build"%string \/ part = "static"%string ->
  should_include path = false.
Proof.
  intros Hin Hpart. apply should_include_false.
  destruct Hpart as [?|[->| ->]]; [left; eauto | tauto..].
Qed.

Lemma excluded_segment_is_filtered_witness :
  should_include (mkPath "/" ["srv"; "static"; "js"; "main.py"]) = false /\
  should_include (mkPath "" ["web"; "node_modules"; "react"; "index.js"]) = false.
Proof.
  split.
  - apply (excluded_segment_is_filtered _ "static").
    + by_compute.
    + right; right; reflexivity.
  - apply (excluded_segment_is_filtered _ "node_modules").
    + by_compute.
    + left. by_compute.
Defined.

(** C5: for a pattern of the auto-generated-file set, the test made by the
    filter succeeds exactly when the rule as worded matches the base name (a
    pattern with a leading star matches the names ending with the rest of
    the pattern, another pattern matches the name equal to it), and a match
    excludes the path. *)
Theorem auto_generated_pattern_rule (path : Path) (pattern : string) :
  pattern ∈ auto_generated_files ->
  (pattern_matches pattern (name path) = true <->
     matches_by_rule pattern (name path)) /\
  (matches_by_rule pattern (name path) -> should_include path = false).
Proof.
  intros Hin. split; [apply pattern_matches_spec|].
  intros Hm. apply should_include_false. do 3 right; left.
  exists pattern. split; [assumption | apply pattern_matches_spec, Hm].
Qed.

Lemma auto_generated_pattern_rule_witness :
  should_include (mkPath "" ["public"; "robots.txt"]) = false /\
  should_include (mkPath "" ["out"; "bundle.js.map"]) = false.
Proof.
  split.
  - apply (auto_generated_pattern_rule _ "robots.txt").
    + by_compute.
    + reflexivity.
  - apply (auto_generated_pattern_rule _ "*.js.map").
    + by_compute.
    + by exists "bundle"%string.
Defined.

(** C8: a path whose suffix is in the excluded-extension set is excluded by
    the filter. *)
Theorem excluded_extension_is_filtered (path : Path) :
  suffix path ∈ exclude_extensions -> should_include path = false.
Proof. intros H. apply should_include_false. tauto. Qed.

Lemma excluded_extension_is_filtered_witness :
  should_include (mkPath "" ["assets"; "logo.svg"]) = false.
Proof.
  apply excluded_extension_is_filtered. by_compute.
Defined.

(** C7: under directories that no directory rule excludes, the filter
    excludes [LICENSE.txt], excludes [app.css.map], a name that the star
    pattern [*.css.map] of the auto-generated set matches (and whose suffix
    [.map] is an excluded extension as well), and includes [main.py]. *)
Theorem filter_examples (anch : string) (dirs : list string) :
  (forall part, part ∈ parts (mkPath anch dirs) ->
     (part ∉ exclude_dirs) /\ part <> "build"%string /\ part <> "static"%string) ->
  should_include (mkPath anch (dirs ++ ["LICENSE.txt"%string])) = false /\
  (should_include (mkPath anch (dirs ++ ["app.css.map"%string])) = false /\
   "*.css.map"%string ∈ auto_generated_files /\
   pattern_matches "*.css.map" (name (mkPath anch (dirs ++ ["app.css.map"%string]))) = true /\
   suffix (mkPath anch (dirs ++ ["app.css.map"%string])) ∈ exclude_extensions) /\
  should_include (mkPath anch (dirs ++ ["main.py"%string])) = true.
Proof.
  intros Hdirs. split; [|split].
  - apply should_include_false. do 3 right; left.
    exists "LICENSE.txt"%string. rewrite name_snoc.
    split; [by_compute | reflexivity].
  - assert ("*.css.map"%string ∈ auto_generated_files) as Hin
      by by_compute.
    assert (pattern_matches "*.css.map"
              (name (mkPath anch (dirs ++ ["app.css.map"%string]))) = true) as Hm
      by (rewrite name_snoc; reflexivity).
    repeat split; try assumption.
    + apply should_include_false. do 3 right; left. eauto.
    + unfold suffix. rewrite name_snoc. by_compute.
  - apply should_include_true. rewrite parts_snoc.
    unfold suffix. rewrite name_snoc.
    assert (forall s : string, s <> "main.py"%string ->
              s ∈ parts (mkPath anch dirs) ++ ["main.py"%string] ->
              s ∈ parts (mkPath anch dirs)) as Hsnoc.
    { intros s Hne [?|Hs%list_elem_of_singleton]%elem_of_app; done. }
    repeat split.
    + intros part [Hin|Hs%list_elem_of_singleton]%elem_of_app.
      * by apply Hdirs.
      * subst part. by_compute.
    + by_compute.
    + by_compute.
    + intros pattern Hin%elem_of_elements. revert pattern Hin.
      apply Forall_forall. by_compute.
    + intros Hin%Hsnoc; [|done]. by destruct (Hdirs _ Hin) as (_ & ? & _).
    + intros Hin%Hsnoc; [|done]. by destruct (Hdirs _ Hin) as (_ & _ & ?).
Qed.

Lemma filter_examples_witness :
  should_include (mkPath "" ["LICENSE.txt"%string]) = false /\
  should_include (mkPath "" ["app.css.map"%string]) = false /\
  should_include (mkPath "" ["main.py"%string]) = true /\
  should_include (mkPath "/" ["home"; "dev"; "app"; "main.py"]%string) = true.
Proof.
  assert (forall part : string, part ∈ [] ->
            (part ∉ exclude_dirs) /\ part <> "build"%string /\ part <> "static"%string)
    as H0 by (by intros ? ?%elem_of_nil).
  assert (forall part : string, part ∈ ["/"; "home"; "dev"; "app"]%string ->
            (part ∉ exclude_dirs) /\ part <> "build"%string /\ part <> "static"%string)
    as H1.
  { apply Forall_forall. by_compute. }
  pose proof (filter_examples "" [] H0) as (E1 & (E2 & _) & E3).
  pose proof (filter_examples "/" ["home"; "dev"; "app"]%string H1) as (_ & _ & E4).
  exact (conj E1 (conj E2 (conj E3 E4))).
Defined.

(** * Paths and the output monad *)

Section PathFacts.
Implicit Types (base p : Path) (rel r : list string).

Lemma join_nil base : join base [] = base.
Proof. destruct base. unfold join; simpl. by rewrite app_nil_r. Qed.

Lemma join_join base r1 r2 : join (join base r1) r2 = join base (r1 ++ r2).
Proof. unfold join; simpl. by rewrite app_assoc. Qed.

Lemma join_inj base r1 r2 : join base r1 = join base r2 -> r1 = r2.
Proof. unfold join. intros [= H]. by apply app_inv_head in H. Qed.

Lemma depth_join base r : depth (join base r) = depth base + length r.
Proof. unfold depth, join; simpl. by rewrite length_app. Qed.

Lemma join_ne_base base r : r <> [] -> join base r <> base.
Proof.
  intros Hr Heq. apply (f_equal depth) in Heq. rewrite depth_join in Heq.
  destruct r; [done | simpl in Heq; lia].
Qed.

Lemma parent_join_snoc base r x : parent (join base (r ++ [x])) = join base r.
Proof.
  unfold parent, join; simpl. by rewrite app_assoc, removelast_last.
Qed.

Lemma strip_prefix_app (pre l : list string) :
  strip_prefix pre (pre ++ l) = Some l.
Proof.
  induction pre as [|x pre IH]; simpl; [done|]. by rewrite decide_True.
Qed.

Lemma relative_to_join base r : relative_to (join base r) base = Some r.
Proof.
  unfold relative_to; simpl. rewrite decide_True by done.
  apply strip_prefix_app.
Qed.

Lemma is_ancestor_depth a p : is_ancestor a p -> depth a < depth p.
Proof.
  intros (r & Hr & ->). rewrite depth_join.
  destruct r; [done | simpl; lia].
Qed.

Lemma prefixes_snoc rel x : prefixes (rel ++ [x]) = prefixes rel ++ [rel ++ [x]].
Proof.
  induction rel as [|y rel IH]; simpl; [done|].
  by rewrite IH, fmap_app.
Qed.

Lemma elem_of_prefixes r rel :
  r ∈ prefixes rel <-> r <> [] /\ exists k, rel = r ++ k.
Proof.
  revert r. induction rel as [|x rel IH]; intros r; simpl.
  - split; [by intros ?%elem_of_nil|].
    intros (Hr & k & Hk). by destruct r.
  - rewrite elem_of_cons, list_elem_of_fmap. split.
    + intros [->|(r' & -> & (Hr' & k & ->)%IH)].
      * split; [done | by exists rel].
      * split; [done | by exists k].
    + intros (Hr & k & Hk). destruct r as [|y r]; [done|].
      injection Hk as -> ->. destruct r as [|z r]; [by left | right].
      exists (z :: r). split; [done|]. apply IH. split; [done | by exists k].
Qed.

Lemma chain_snoc base rel x :
  chain base (rel ++ [x]) = join base (rel ++ [x]) :: chain base rel.
Proof. unfold chain. by rewrite prefixes_snoc, reverse_snoc. Qed.

Lemma elem_of_chain base rel d :
  d ∈ chain base rel <-> exists r k, r <> [] /\ rel = r ++ k /\ d = join base r.
Proof.
  unfold chain. rewrite list_elem_of_fmap. split.
  - intros (r & -> & (Hr & k & ->)%elem_of_reverse%elem_of_prefixes). eauto.
  - intros (r & k & Hr & -> & ->). exists r. split; [done|].
    apply elem_of_reverse, elem_of_prefixes. eauto.
Qed.

(** The proper ancestors of a member of the chain that lie below the base
    are members of the chain. *)
Lemma ancestor_in_chain base rel r k a :
  rel = r ++ k -> is_ancestor base a -> is_ancestor a (join base r) ->
  a ∈ chain base rel.
Proof.
  intros -> (ra & Hra & ->) (k' & _ & Heq).
  rewrite join_join in Heq. apply join_inj in Heq as ->.
  apply elem_of_chain. exists ra, (k' ++ k).
  split; [done|]. by rewrite app_assoc.
Qed.

Lemma chain_depth base rel d :
  d ∈ chain base rel -> depth d <= depth base + length rel.
Proof.
  intros (r & k & _ & -> & ->)%elem_of_chain.
  rewrite depth_join, length_app. lia.
Qed.

(** Along the chain the depth decreases strictly. *)
Lemma chain_sorted base rel :
  StronglySorted (fun p q => depth q < depth p) (chain base rel).
Proof.
  induction rel as [|x rel IH] using rev_ind; [constructor|].
  rewrite chain_snoc. constructor; [done|].
  apply Forall_forall. intros d Hd%chain_depth.
  rewrite depth_join, length_app. simpl. lia.
Qed.

End PathFacts.

Section MonadFacts.

Lemma dir_lines_app (tr1 tr2 : list event) :
  dir_lines (tr1 ++ tr2) = dir_lines tr1 ++ dir_lines tr2.
Proof. apply omap_app. Qed.

Lemma bind_returned {A B} (m : M A) (f : A -> M B) tr a :
  m = (tr, Returned a) -> bind m f = (tr ++ (f a).1, (f a).2).
Proof. by intros ->. Qed.

Lemma bind_dir_lines {A B} (m : M A) (f : A -> M B) :
  dir_lines (bind m f).1 =
    dir_lines m.1 ++
    match m.2 with Returned a => dir_lines (f a).1 | _ => [] end.
Proof.
  unfold bind. destruct m as [tr [a|e|]]; simpl;
    by rewrite ?dir_lines_app, ?app_nil_r.
Qed.

(** A loop whose body prints one line per element and returns. *)
Lemma for_each_lines {A} (l : list A) (body : A -> M unit) (line : A -> event) :
  (forall x, x ∈ l -> body x = ([line x], Returned tt)) ->
  for_each l body = (line <$> l, Returned tt).
Proof.
  induction l as [|x l IH]; intros Hbody; simpl; [done|].
  rewrite (bind_returned _ _ [line x] tt) by (apply Hbody; left).
  rewrite IH; [done|]. intros y Hy. apply Hbody. by right.
Qed.

Lemma bind_ret_l {A B} (a : A) (f : A -> M B) : bind (ret a) f = f a.
Proof. unfold bind, ret; simpl. by destruct (f a). Qed.

Lemma bind_raise {A B} (e : exn) (f : A -> M B) : bind (raise e) f = raise e.
Proof. reflexivity. Qed.

Lemma bind_assoc {A B C} (m : M A) (f : A -> M B) (g : B -> M C) :
  bind (bind m f) g = bind m (fun a => bind (f a) g).
Proof.
  unfold bind. destruct m as [tr [a|e|]]; simpl; [|done..].
  destruct (f a) as [tr' [b|e|]]; simpl; by rewrite ?app_assoc.
Qed.

Lemma for_each_app {A} (l1 l2 : list A) (body : A -> M unit) :
  for_each (l1 ++ l2) body = (for_each l1 body ;;; for_each l2 body).
Proof.
  induction l1 as [|x l1 IH]; simpl; [by rewrite bind_ret_l|].
  by rewrite bind_assoc, IH.
Qed.

Lemma try_except_bind_returned {A B} (m : M A) (k : A -> M B) h tr a :
  m = (tr, Returned a) ->
  try_except (bind m k) h
  = (tr ++ (try_except (k a) h).1, (try_except (k a) h).2).
Proof.
  intros ->. unfold try_except, bind; simpl.
  destruct (k a) as [tr' [b|e|]]; simpl; [done| |done].
  destruct (h e) as [[tr'' o]|]; simpl; by rewrite ?app_assoc.
Qed.

(** A loop whose body prints a block of lines per element and returns. *)
Lemma for_each_blocks {A} (l : list A) (body : A -> M unit)
    (block : A -> list event) :
  (forall x, x ∈ l -> body x = (block x, Returned tt)) ->
  for_each l body = (l ≫= block, Returned tt).
Proof.
  induction l as [|x l IH]; intros Hbody; simpl; [done|].
  rewrite (bind_returned _ _ (block x) tt) by (apply Hbody; left).
  rewrite IH; [done|]. intros y Hy. apply Hbody. by right.
Qed.

Lemma for_each_ext {A} (l : list A) (body1 body2 : A -> M unit) :
  (forall x, x ∈ l -> body1 x = body2 x) ->
  for_each l body1 = for_each l body2.
Proof.
  induction l as [|x l IH]; intros Hbody; simpl; [done|].
  rewrite (Hbody x) by left. rewrite IH; [done|].
  intros y Hy. apply Hbody. by right.
Qed.

Lemma bind_trace_prefix {A B} (m : M A) (f : A -> M B) :
  exists tl, (bind m f).1 = m.1 ++ tl.
Proof.
  unfold bind. destruct m as [tr [a|e|]]; simpl; eauto using app_nil_r.
  all: exists []; by rewrite app_nil_r.
Qed.

Lemma try_except_trace_prefix {A} (m : M A) h :
  exists tl, (try_except m h).1 = m.1 ++ tl.
Proof.
  unfold try_except. destruct m as [tr [a|e|]]; simpl;
    [exists []; by rewrite app_nil_r | | exists []; by rewrite app_nil_r].
  destruct (h e) as [[tr' o]|]; simpl; [eauto|].
  exists []; by rewrite app_nil_r.
Qed.

End MonadFacts.

(** * The tree printer *)

Section TreePrinter.
Variable is_dir : Path -> bool.
Implicit Types (base path d : Path) (S : gset Path) (tr : list event).

(** ** The [while] loop *)

Lemma note_dirs_spec (ch : list Path) : forall (acc : list Path) S,
  exists new,
    note_dirs is_dir ch (acc, S) = (acc ++ new, list_to_set new ∪ S) /\
    new `sublist_of` ch /\ NoDup new /\
    (forall d, d ∈ new -> d ∉ S) /\
    (forall d, d ∈ ch -> is_dir d = true -> d ∈ S \/ d ∈ new).
Proof.
  induction ch as [|c ch IH]; intros acc S.
  - exists []. simpl. rewrite app_nil_r.
    repeat split; [f_equal; set_solver | constructor | constructor
                  | by intros ? ?%elem_of_nil | by intros ? ?%elem_of_nil].
  - unfold note_dirs; simpl. unfold note_dir at 2; simpl.
    destruct (is_dir c) eqn:Hc; simpl; [case_bool_decide as Hin; simpl|].
    + destruct (IH (acc ++ [c]) ({[c]} ∪ S)) as (new & Heq & Hsub & Hnd & Hnew & Hall).
      exists (c :: new). unfold note_dirs in Heq. rewrite Heq.
      repeat split.
      * rewrite <- app_assoc. f_equal. set_solver.
      * by constructor.
      * constructor; [|done]. intros Hc'. apply (Hnew c Hc'). set_solver.
      * intros d [->|Hd]%elem_of_cons; [done|].
        intros HdS. apply (Hnew d Hd). set_solver.
      * intros d [->|Hd]%elem_of_cons Hdir; [right; left|].
        destruct (Hall d Hd Hdir) as [HdS|?]; [|right; by right].
        apply elem_of_union in HdS as [->%elem_of_singleton|?];
          [right; left | by left].
    + destruct (IH acc S) as (new & Heq & Hsub & Hnd & Hnew & Hall).
      exists new. unfold note_dirs in Heq. rewrite Heq.
      repeat split; try done.
      * by constructor.
      * intros d [->|Hd]%elem_of_cons Hdir; [by left | by apply Hall].
    + destruct (IH acc S) as (new & Heq & Hsub & Hnd & Hnew & Hall).
      exists new. unfold note_dirs in Heq. rewrite Heq.
      repeat split; try done.
      * by constructor.
      * intros d [->|Hd]%elem_of_cons Hdir; [congruence | by apply Hall].
Qed.

(** Whatever the loop returns, it got by noting some paths. *)
Lemma climb_visits (fuel : nat) base : forall current st st',
  climb is_dir fuel base current st = Some st' ->
  exists ch, st' = note_dirs is_dir ch st.
Proof.
  induction fuel as [|fuel IH]; intros current st st'; simpl;
    case_decide; intros Heq; simplify_eq; try (by exists []).
  destruct (IH _ _ _ Heq) as [ch ->]. by exists (current :: ch).
Qed.

(** From a path below [base] the loop runs through the chain and stops. *)
Lemma climb_join base (rel : list string) : forall st (fuel : nat),
  length rel <= fuel ->
  climb is_dir fuel base (join base rel) st
  = Some (note_dirs is_dir (chain base rel) st).
Proof.
  induction rel as [|x rel IH] using rev_ind; intros st fuel Hfuel.
  - rewrite join_nil. destruct fuel; simpl; by rewrite decide_True.
  - rewrite length_app in Hfuel. simpl in Hfuel.
    destruct fuel as [|fuel]; [lia|]. simpl.
    rewrite decide_False by (apply join_ne_base; by destruct rel).
    rewrite parent_join_snoc, IH by lia. by rewrite chain_snoc.
Qed.


(** ** Printing one entry *)

Lemma print_dir_cases base d :
  (exists t, print_dir base d = ([DirLine d t], Returned tt)) \/
  (exists e, print_dir base d = ([], Raised e)).
Proof.
  unfold print_dir, level_of. destruct (relative_to d base); simpl; eauto.
Qed.

Lemma print_file_dir_lines base path : dir_lines (print_file base path).1 = [].
Proof.
  unfold print_file, level_of. by destruct (relative_to path base).
Qed.

Lemma print_dir_join base (r : list string) :
  print_dir base (join base r) = ([dir_event base (join base r)], Returned tt).
Proof.
  unfold print_dir, level_of, dir_event.
  rewrite relative_to_join, depth_join. simpl.
  by replace (depth base + length r - depth base) with (length r) by lia.
Qed.

Lemma print_file_join base (r : list string) :
  print_file base (join base r) = ([file_event base (join base r)], Returned tt).
Proof.
  unfold print_file, level_of, file_event.
  rewrite relative_to_join, depth_join. simpl.
  by replace (depth base + length r - depth base) with (length r) by lia.
Qed.

Lemma for_each_print_dir_sublist base (l : list Path) :
  dir_lines (for_each l (print_dir base)).1 `sublist_of` l.
Proof.
  induction l as [|d l IH]; simpl; [constructor|].
  rewrite bind_dir_lines.
  destruct (print_dir_cases base d) as [[t ->]|[e ->]]; simpl.
  - by constructor.
  - apply sublist_nil_l.
Qed.

Lemma dir_lines_dir_events base (l : list Path) :
  dir_lines (dir_event base <$> l) = l.
Proof. induction l as [|d l IH]; simpl; [done|]. f_equal. apply IH. Qed.

(** ** The order of the lines *)

Lemma ancestors_first_mono base S S' tr :
  S ⊆ S' -> ancestors_first is_dir base S tr ->
  ancestors_first is_dir base S' tr.
Proof.
  intros Hsub H pre e post p a Htr He Hba Hap Hdir.
  destruct (H pre e post p a Htr He Hba Hap Hdir); [left; set_solver | by right].
Qed.

Lemma ancestors_first_app base S tr1 tr2 :
  ancestors_first is_dir base S tr1 ->
  ancestors_first is_dir base (list_to_set (dir_lines tr1) ∪ S) tr2 ->
  ancestors_first is_dir base S (tr1 ++ tr2).
Proof.
  intros H1 H2 pre e post p a Htr He Hba Hap Hdir.
  apply app_eq_inv in Htr as [(k & -> & Hk)|(k & -> & ->)].
  - destruct k as [|e' k]; simpl in Hk.
    + subst tr2. rewrite app_nil_r in H2.
      destruct (H2 [] e post p a eq_refl He Hba Hap Hdir)
        as [[?%elem_of_list_to_set|?]%elem_of_union|?%elem_of_nil];
        [by right | by left | done].
    + injection Hk as <- ->.
      exact (H1 pre e k p a eq_refl He Hba Hap Hdir).
  - destruct (H2 k e post p a eq_refl He Hba Hap Hdir)
      as [[?%elem_of_list_to_set|?]%elem_of_union|?];
      [right | by left | right];
      rewrite dir_lines_app, elem_of_app; auto.
Qed.

Lemma ancestors_first_no_subject base S tr :
  Forall (fun e => subject e = None) tr -> ancestors_first is_dir base S tr.
Proof.
  intros Hall pre e post p a -> He. rewrite Forall_app, Forall_cons in Hall.
  destruct Hall as (_ & He' & _). congruence.
Qed.

Lemma StronglySorted_sublist {A} (R : relation A) (l1 l2 : list A) :
  l1 `sublist_of` l2 -> StronglySorted R l2 -> StronglySorted R l1.
Proof.
  induction 1 as [|x l1 l2 Hsub IH|x l1 l2 Hsub IH]; intros Hs;
    [done | |]; apply StronglySorted_inv in Hs as [Hs Hx]; [|auto].
  constructor; [auto|]. rewrite Forall_forall in *.
  intros y Hy. apply Hx. by apply (sublist_subseteq _ _ Hsub).
Qed.

(** ** One iteration of the [for] loop, for any path *)

Variable is_file : Path -> bool.

Lemma visit_dir_lines base path S :
  NoDup (dir_lines (visit is_dir is_file base path S).1) /\
  (forall d, d ∈ dir_lines (visit is_dir is_file base path S).1 -> d ∉ S) /\
  (forall S', (visit is_dir is_file base path S).2 = Returned S' ->
     S ⊆ S' /\
     forall d, d ∈ dir_lines (visit is_dir is_file base path S).1 -> d ∈ S').
Proof.
  unfold visit.
  destruct (climb is_dir _ base path ([], S)) as [[dirs_to_show S1]|] eqn:Hclimb;
    [|simpl; repeat split; [constructor | by intros ? ?%elem_of_nil
                           | done | done]].
  apply climb_visits in Hclimb as [ch Hch].
  destruct (note_dirs_spec ch [] S) as (new & Heq & _ & Hnd & Hnew & _).
  rewrite <- Hch in Heq. simpl in Heq. injection Heq as -> ->.
  pose proof (for_each_print_dir_sublist base (reverse new)) as Hsub.
  assert (dir_lines
            (for_each (reverse new) (print_dir base);;;
             (if is_file path then print_file base path else ret tt);;;
             ret (list_to_set new ∪ S)).1
          = dir_lines (for_each (reverse new) (print_dir base)).1) as ->.
  { rewrite bind_dir_lines.
    destruct (for_each (reverse new) (print_dir base)).2;
      rewrite ?app_nil_r; [|done..].
    rewrite bind_dir_lines.
    destruct (is_file path); [rewrite print_file_dir_lines | simpl].
    - destruct (print_file base path).2; by rewrite ?app_nil_r.
    - by rewrite app_nil_r. }
  assert (forall d, d ∈ dir_lines (for_each (reverse new) (print_dir base)).1 ->
            d ∈ new) as Hin.
  { intros d Hd. apply elem_of_reverse. by apply (sublist_subseteq _ _ Hsub). }
  assert (forall S',
            (for_each (reverse new) (print_dir base);;;
             (if is_file path then print_file base path else ret tt);;;
             ret (list_to_set new ∪ S)).2 = Returned S' ->
            S' = list_to_set new ∪ S) as Hout.
  { intros S'. unfold bind.
    destruct (for_each (reverse new) (print_dir base)).2; simpl; [|done..].
    destruct (is_file path); simpl;
      [destruct (print_file base path).2; simpl; [|done..]|];
      by intros [= <-]. }
  split; [|split].
  - apply (sublist_NoDup _ (reverse new)); [|done].
    by rewrite reverse_Permutation.
  - intros d Hd. by apply Hnew, Hin.
  - intros S' ->%Hout. split; [set_solver|].
    intros d Hd%Hin. set_solver.
Qed.

Lemma tree_loop_dir_lines base (paths : list Path) : forall S,
  NoDup (dir_lines (tree_loop is_dir is_file base paths S).1) /\
  forall d, d ∈ dir_lines (tree_loop is_dir is_file base paths S).1 -> d ∉ S.
Proof.
  induction paths as [|path rest IH]; intros S; simpl.
  { split; [constructor | by intros ? ?%elem_of_nil]. }
  destruct (should_include path); [|apply IH].
  rewrite bind_dir_lines.
  destruct (visit_dir_lines base path S) as (Hnd & Hnew & Hret).
  destruct (visit is_dir is_file base path S) as [tr1 [S'| |]]; simpl in *;
    rewrite ?app_nil_r; [|done..].
  destruct (Hret S' eq_refl) as [Hsub Hin].
  destruct (IH S') as [Hnd' Hnew'].
  split.
  - apply NoDup_app. repeat split; [done | | done].
    intros d Hd Hd'. apply (Hnew' d Hd'), Hin, Hd.
  - intros d [Hd|Hd]%elem_of_app; [by apply Hnew|].
    intros HdS. apply (Hnew' d Hd). set_solver.
Qed.

(** One iteration of the [for] loop, for a path below the base. *)
Lemma visit_join base (rel : list string) S :
  exists new,
    visit is_dir is_file base (join base rel) S
    = ((dir_event base <$> reverse new) ++
       (if is_file (join base rel)
        then [file_event base (join base rel)] else []),
       Returned (list_to_set new ∪ S)) /\
    new `sublist_of` chain base rel /\
    (forall d, d ∈ chain base rel -> is_dir d = true -> d ∈ S \/ d ∈ new).
Proof.
  unfold visit. rewrite climb_join
    by (change (length rel <= depth (join base rel)); rewrite depth_join; lia).
  destruct (note_dirs_spec (chain base rel) [] S)
    as (new & -> & Hsub & _ & _ & Hall).
  exists new. split; [|done]. simpl.
  rewrite (for_each_lines _ _ (dir_event base)).
  2:{ intros d Hd. rewrite elem_of_reverse in Hd.
      apply (sublist_subseteq _ _ Hsub), elem_of_chain in Hd
        as (r & k & _ & _ & ->).
      apply print_dir_join. }
  destruct (is_file (join base rel)).
  - rewrite print_file_join. reflexivity.
  - unfold bind; simpl. by rewrite app_nil_r.
Qed.

Lemma visit_ancestors_first base (rel : list string) S (new : list Path) :
  new `sublist_of` chain base rel ->
  (forall d, d ∈ chain base rel -> is_dir d = true -> d ∈ S \/ d ∈ new) ->
  ancestors_first is_dir base S
    ((dir_event base <$> reverse new) ++
     (if is_file (join base rel)
      then [file_event base (join base rel)] else [])).
Proof.
  intros Hsub Hall. apply ancestors_first_app.
  - intros pre e post p a Htr He Hba Hap Hdir.
    apply fmap_app_inv in Htr as (l1 & l2' & -> & Htl & Hrev).
    symmetry in Htl. apply fmap_cons_inv in Htl as (d & l2 & -> & -> & ->).
    injection He as <-. rewrite dir_lines_dir_events.
    assert (d ∈ new) as Hd
      by (apply elem_of_reverse; rewrite Hrev, elem_of_app; right; left).
    apply (sublist_subseteq _ _ Hsub), elem_of_chain in Hd
      as (r & k & _ & Hrel & ->).
    pose proof (ancestor_in_chain base rel r k a Hrel Hba Hap) as Ha.
    destruct (Hall a Ha Hdir) as [?|Hnew]; [by left | right].
    apply elem_of_reverse in Hnew. rewrite Hrev in Hnew.
    apply elem_of_app in Hnew as [?|[->|Hl2]%elem_of_cons]; [done | |].
    + apply is_ancestor_depth in Hap. lia.
    + exfalso. apply is_ancestor_depth in Hap.
      assert (StronglySorted (fun p q => depth q < depth p) new) as Hs
        by (eapply StronglySorted_sublist; [done | apply chain_sorted]).
      rewrite <- (reverse_involutive new), Hrev, reverse_app, reverse_cons,
        <- app_assoc in Hs.
      apply StronglySorted_app in Hs as (Hlt & _ & _).
      specialize (Hlt a (join base r)).
      rewrite elem_of_reverse, elem_of_app, list_elem_of_singleton in Hlt.
      specialize (Hlt Hl2 (or_introl eq_refl)). lia.
  - rewrite dir_lines_dir_events. destruct (is_file (join base rel));
      [|by apply ancestors_first_no_subject].
    intros pre e post p a Htr He Hba Hap Hdir.
    destruct pre as [|? [|? ?]]; [|done..].
    injection Htr as <- <-. injection He as <-. left.
    assert (a ∈ chain base rel) as Ha.
    { apply (ancestor_in_chain base rel rel [] a); [by rewrite app_nil_r|done..]. }
    destruct (Hall a Ha Hdir); [set_solver|].
    apply elem_of_union. left. by apply elem_of_list_to_set, elem_of_reverse.
Qed.

Lemma tree_loop_ordered base (paths : list Path) :
  Forall (is_ancestor base) paths -> forall S,
  exists tr, tree_loop is_dir is_file base paths S = (tr, Returned tt) /\
             ancestors_first is_dir base S tr.
Proof.
  induction 1 as [|path rest (rel & _ & ->) _ IH]; intros S; simpl.
  { exists []. split; [done|]. by apply ancestors_first_no_subject. }
  destruct (should_include (join base rel)); [|apply IH].
  destruct (visit_join base rel S) as (new & Hvisit & Hsub & Hall).
  destruct (IH (list_to_set new ∪ S)) as (tr2 & Hloop & Hord).
  eexists. split.
  - rewrite (bind_returned _ _ _ _ Hvisit), Hloop. reflexivity.
  - apply ancestors_first_app; [by apply visit_ancestors_first|].
    eapply ancestors_first_mono; [|exact Hord].
    rewrite dir_lines_app, dir_lines_dir_events.
    intros d [Hd%elem_of_list_to_set|?]%elem_of_union; [|set_solver].
    apply elem_of_union. left.
    rewrite elem_of_list_to_set, elem_of_app, elem_of_reverse. by left.
Qed.

End TreePrinter.

(** * The three orders are strict total orders *)

Lemma string_compare_refl (s : string) : String.compare s s = Eq.
Proof.
  induction s as [|a s IH]; simpl; [done|].
  unfold Ascii.compare. by rewrite N.compare_refl.
Qed.

Lemma string_ltb_leb (s1 s2 : string) :
  String.ltb s1 s2 = true <-> String.leb s1 s2 = true /\ s1 <> s2.
Proof.
  unfold String.ltb, String.leb.
  destruct (String.compare s1 s2) eqn:E.
  - apply String.compare_eq_iff in E. split; [done | by intros [_ ?]].
  - split; [intros _; split; [done|] | done].
    intros ->. by rewrite string_compare_refl in E.
  - split; [done | by intros [? _]].
Qed.

Lemma string_ltb_irrefl (s : string) : String.ltb s s = false.
Proof. unfold String.ltb. by rewrite string_compare_refl. Qed.

Lemma string_ltb_trans (s1 s2 s3 : string) :
  String.ltb s1 s2 = true -> String.ltb s2 s3 = true -> String.ltb s1 s3 = true.
Proof.
  rewrite !string_ltb_leb. intros [H12 N12] [H23 N23].
  pose proof (@transitivity _ String.le _ s1 s2 s3) as T.
  unfold String.le in T. rewrite !Is_true_true in T. split; [by apply T|].
  intros ->. apply N23. by apply String.leb_antisym.
Qed.

Lemma string_ltb_total (s1 s2 : string) :
  String.ltb s1 s2 = true \/ s1 = s2 \/ String.ltb s2 s1 = true.
Proof.
  unfold String.ltb. rewrite (String.compare_antisym s1 s2).
  destruct (String.compare s2 s1) eqn:E; simpl; auto.
  apply String.compare_eq_iff in E. auto.
Qed.

Global Instance string_ordered_laws : OrderedLaws string :=
  {| ltb_irrefl := string_ltb_irrefl;
     ltb_trans := string_ltb_trans;
     ltb_total := string_ltb_total |}.

Lemma pair_ltb_irrefl k : pair_ltb k k = false.
Proof.
  destruct k as [[] s]; unfold pair_ltb; simpl; apply string_ltb_irrefl.
Qed.

Lemma pair_ltb_trans k1 k2 k3 :
  pair_ltb k1 k2 = true -> pair_ltb k2 k3 = true -> pair_ltb k1 k3 = true.
Proof.
  destruct k1 as [[] s1], k2 as [[] s2], k3 as [[] s3];
    unfold pair_ltb; simpl; try done; apply string_ltb_trans.
Qed.

Lemma pair_ltb_total k1 k2 :
  pair_ltb k1 k2 = true \/ k1 = k2 \/ pair_ltb k2 k1 = true.
Proof.
  destruct k1 as [[] s1], k2 as [[] s2]; unfold pair_ltb; simpl; auto;
    destruct (string_ltb_total s1 s2) as [?|[->|?]]; auto.
Qed.

Global Instance pair_ordered_laws : OrderedLaws (bool * string) :=
  {| ltb_irrefl := pair_ltb_irrefl;
     ltb_trans := pair_ltb_trans;
     ltb_total := pair_ltb_total |}.

Lemma list_ltb_irrefl l : list_ltb l l = false.
Proof. induction l as [|x l IH]; simpl; [done|]. by rewrite String.eqb_refl. Qed.

Lemma list_ltb_trans l1 l2 l3 :
  list_ltb l1 l2 = true -> list_ltb l2 l3 = true -> list_ltb l1 l3 = true.
Proof.
  revert l2 l3. induction l1 as [|x l1 IH]; intros [|y l2] [|z l3]; simpl;
    try done.
  destruct (String.eqb_spec x y) as [->|Nxy].
  - destruct (String.eqb_spec y z) as [->|Nyz]; [apply IH | done].
  - destruct (String.eqb_spec y z) as [->|Nyz].
    + intros Hxz _. by destruct (String.eqb_spec x z).
    + intros Hxy Hyz. pose proof (string_ltb_trans _ _ _ Hxy Hyz) as Hxz.
      destruct (String.eqb_spec x z) as [->|]; [|done].
      by rewrite string_ltb_irrefl in Hxz.
Qed.

Lemma list_ltb_total l1 l2 :
  list_ltb l1 l2 = true \/ l1 = l2 \/ list_ltb l2 l1 = true.
Proof.
  revert l2. induction l1 as [|x l1 IH]; intros [|y l2]; simpl; auto.
  destruct (String.eqb_spec x y) as [->|Nxy].
  - rewrite String.eqb_refl. destruct (IH l2) as [?|[->|?]]; auto.
  - destruct (String.eqb_spec y x) as [->|_]; [done|].
    destruct (string_ltb_total x y) as [?|[?|?]]; auto.
Qed.

Global Instance list_ordered_laws : OrderedLaws (list string) :=
  {| ltb_irrefl := list_ltb_irrefl;
     ltb_trans := list_ltb_trans;
     ltb_total := list_ltb_total |}.

(** * [sorted] *)

Section SortedFacts.
Context {A K : Type} `{Hlaws : OrderedLaws K} (key : A -> K).
Implicit Types (x y z : A) (l : list A).

Lemma ltb_asym (a b : K) : ltb a b = true -> ltb b a = false.
Proof using Hlaws.
  intros Hab. destruct (ltb b a) eqn:Hba; [|done].
  by rewrite <- (ltb_irrefl a), <- (ltb_trans a b a Hab Hba).
Qed.

Lemma key_le_trans x y z : key_le key x y -> key_le key y z -> key_le key x z.
Proof using Hlaws.
  unfold key_le. intros Hxy Hyz. destruct (ltb (key z) (key x)) eqn:Hzx; [|done].
  destruct (ltb_total (key y) (key z)) as [Hlt|[Heq|Hlt]].
  - by rewrite (ltb_trans _ _ _ Hlt Hzx) in Hxy.
  - rewrite Heq in Hxy. congruence.
  - congruence.
Qed.

Lemma key_le_antisym x y : key_le key x y -> key_le key y x -> key x = key y.
Proof using Hlaws.
  unfold key_le. intros Hxy Hyx.
  destruct (ltb_total (key x) (key y)) as [?|[?|?]]; congruence.
Qed.

Lemma insert_by_perm x l : insert_by key x l ≡ₚ x :: l.
Proof.
  induction l as [|y l IH]; simpl; [done|].
  destruct (ltb (key y) (key x)); [|done].
  by rewrite IH, Permutation_swap.
Qed.

Lemma sorted_perm l : sorted key l ≡ₚ l.
Proof.
  induction l as [|x l IH]; simpl; [done|].
  by rewrite insert_by_perm, IH.
Qed.

Lemma insert_by_sorted x l :
  StronglySorted (key_le key) l -> StronglySorted (key_le key) (insert_by key x l).
Proof using Hlaws.
  induction 1 as [|y l Hs IH Hy]; simpl; [repeat constructor|].
  destruct (ltb (key y) (key x)) eqn:Hyx.
  - constructor; [done|]. rewrite insert_by_perm.
    constructor; [|done]. by apply ltb_asym.
  - constructor; [by constructor|]. constructor; [done|].
    eapply Forall_impl; [exact Hy|]. intros z Hz.
    by apply (key_le_trans x y z).
Qed.

Lemma sorted_sorted l : StronglySorted (key_le key) (sorted key l).
Proof using Hlaws.
  induction l as [|x l IH]; simpl; [constructor | by apply insert_by_sorted].
Qed.

Lemma sorted_nil_iff l : sorted key l = [] <-> l = [].
Proof.
  split; [|by intros ->]. intros Hs.
  apply Permutation_nil_r. by rewrite <- Hs, sorted_perm.
Qed.

(** The order in which the elements arrive does not matter when their keys
    tell them apart. *)
Lemma sorted_unique l1 l2 :
  (forall x y, x ∈ l1 -> y ∈ l1 -> key x = key y -> x = y) ->
  l1 ≡ₚ l2 -> sorted key l1 = sorted key l2.
Proof using Hlaws.
  intros Hinj Hperm.
  apply (StronglySorted_unique_strong (key_le key));
    [|apply sorted_sorted..|by rewrite !sorted_perm].
  intros x y Hx Hy Hxy Hyx. rewrite sorted_perm in Hx.
  rewrite sorted_perm, <- Hperm in Hy.
  by apply Hinj, key_le_antisym.
Qed.

End SortedFacts.

Lemma string_ltb_false_leb (s1 s2 : string) :
  String.ltb s2 s1 = false <-> String.leb s1 s2 = true.
Proof.
  unfold String.ltb, String.leb. rewrite (String.compare_antisym s1 s2).
  by destruct (String.compare s2 s1).
Qed.

(** * The tree printer: results *)

Lemma tree_banner_printed :
  for_each tree_banner print = (tree_banner, Returned tt).
Proof. reflexivity. Qed.

(** C1: when the entries below the base directory are enumerated, the tree
    printer returns, and every line of its output that was printed for a
    path (a directory header or a file line) comes after the header of
    every directory that is a proper ancestor of that path and lies strictly
    below the base directory. *)
Theorem ancestor_header_first (is_dir is_file : Path -> bool)
    (base_path : Path) (rglob : list Path) :
  Forall (is_ancestor base_path) rglob ->
  exists tr,
    show_clean_structure is_dir is_file base_path rglob = (tr, Returned tt) /\
    forall pre e post p a,
      tr = pre ++ e :: post -> subject e = Some p ->
      is_ancestor base_path a -> is_ancestor a p -> is_dir a = true ->
      a ∈ dir_lines pre.
Proof.
  intros Hbelow. unfold show_clean_structure.
  rewrite <- (sorted_perm parts rglob) in Hbelow.
  destruct (tree_loop_ordered is_dir is_file base_path _ Hbelow ∅)
    as (tr & Hloop & Hord).
  exists (tree_banner ++ tr). split.
  - by rewrite (bind_returned _ _ _ _ tree_banner_printed), Hloop.
  - assert (ancestors_first is_dir base_path ∅ (tree_banner ++ tr)) as Hall.
    { apply ancestors_first_app.
      - apply ancestors_first_no_subject. by repeat constructor.
      - eapply ancestors_first_mono; [|exact Hord]. set_solver. }
    intros pre e post p a Htr He Hba Hap Hdir.
    by destruct (Hall pre e post p a Htr He Hba Hap Hdir) as [?%elem_of_empty|?].
Qed.

Lemma ancestor_header_first_witness :
  Forall (is_ancestor Demo.base) Demo.rglob /\
  exists tr,
    show_clean_structure Demo.is_dir Demo.is_file Demo.base Demo.rglob
    = (tr, Returned tt) /\
    forall pre e post p a,
      tr = pre ++ e :: post -> subject e = Some p ->
      is_ancestor Demo.base a -> is_ancestor a p -> Demo.is_dir a = true ->
      a ∈ dir_lines pre.
Proof.
  assert (Forall (is_ancestor Demo.base) Demo.rglob) as Hbelow.
  { repeat constructor; eexists; (split; [|reflexivity]); discriminate. }
  split; [exact Hbelow|].
  exact (ancestor_header_first Demo.is_dir Demo.is_file Demo.base Demo.rglob Hbelow).
Defined.

(** C2: in the output of one call of the tree printer, whatever is
    enumerated, no directory has two header lines. *)
Theorem header_printed_once (is_dir is_file : Path -> bool)
    (base_path : Path) (rglob : list Path) :
  NoDup (dir_lines (show_clean_structure is_dir is_file base_path rglob).1).
Proof.
  unfold show_clean_structure. rewrite bind_dir_lines.
  rewrite tree_banner_printed. simpl.
  apply tree_loop_dir_lines.
Qed.

(** The tree printed for the small file system. *)
Example demo_tree :
  stdout (show_clean_structure Demo.is_dir Demo.is_file Demo.base Demo.rglob).1
  = stdout tree_banner ++
    [ icon_file +:+ " README.md";
      icon_folder +:+ " a/";
      "  " +:+ icon_file +:+ " x";
      "  " +:+ icon_file +:+ " y";
      icon_folder +:+ " b/";
      icon_folder +:+ " secret/";
      icon_folder +:+ " src/";
      "  " +:+ icon_file +:+ " main.py";
      "  " +:+ icon_folder +:+ " util/";
      "    " +:+ icon_file +:+ " helper.py" ]%string.
Proof. vm_compute. reflexivity. Qed.

(** * The summary printer *)

Section SummaryPrinter.
Variable is_dir : Path -> bool.
Variable listdir : Path -> exn + list string.
Implicit Types (base item : Path) (names : list string).

Lemma summary_banner_printed :
  for_each summary_banner print = (summary_banner, Returned tt).
Proof. reflexivity. Qed.

Lemma print_sub_item_event (x : Path) :
  print_sub_item is_dir x = ([sub_item_event is_dir x], Returned tt).
Proof. unfold print_sub_item, sub_item_event. by destruct (is_dir x). Qed.

Lemma show_children_listed item names :
  listdir item = inr names ->
  show_children is_dir listdir item
  = (sub_item_event is_dir <$> sorted (sub_item_key is_dir) (children item names),
     Returned tt).
Proof.
  intros Hls. unfold show_children, iterdir. rewrite Hls, bind_ret_l.
  apply for_each_lines. intros x _. apply print_sub_item_event.
Qed.

Lemma show_children_raises item e :
  listdir item = inl e -> show_children is_dir listdir item = ([], Raised e).
Proof. intros Hls. unfold show_children, iterdir. by rewrite Hls. Qed.

Lemma show_item_listed item names :
  listdir item = inr names ->
  show_item is_dir listdir item
  = (item_event item ::
       (sub_item_event is_dir <$> sorted (sub_item_key is_dir) (children item names)),
     Returned tt).
Proof.
  intros Hls. unfold show_item. by rewrite (show_children_listed _ _ Hls).
Qed.

Lemma show_item_denied item msg :
  listdir item = inl (PermissionError msg) ->
  show_item is_dir listdir item
  = ([item_event item; permission_denied], Returned tt).
Proof.
  intros Hls. unfold show_item. by rewrite (show_children_raises _ _ Hls).
Qed.

Lemma show_item_raises item msg :
  listdir item = inl (Exception msg) ->
  show_item is_dir listdir item = ([item_event item], Raised (Exception msg)).
Proof.
  intros Hls. unfold show_item. by rewrite (show_children_raises _ _ Hls).
Qed.

(** The body of the loop prints the header first, whatever follows. *)
Lemma show_item_header item :
  exists tl, (show_item is_dir listdir item).1 = item_event item :: tl.
Proof.
  destruct (listdir item) as [[msg|msg]|names] eqn:Hls.
  - rewrite (show_item_denied _ _ Hls). eauto.
  - rewrite (show_item_raises _ _ Hls). eauto.
  - rewrite (show_item_listed _ _ Hls). eauto.
Qed.

Lemma show_item_returns item :
  (forall msg, listdir item <> inl (Exception msg)) ->
  (show_item is_dir listdir item).2 = Returned tt.
Proof.
  intros Hok. destruct (listdir item) as [[msg|msg]|names] eqn:Hls.
  - by rewrite (show_item_denied _ _ Hls).
  - by destruct (Hok msg).
  - by rewrite (show_item_listed _ _ Hls).
Qed.

Lemma for_each_show_item_returns (items : list Path) :
  Forall (fun item => forall msg, listdir item <> inl (Exception msg)) items ->
  (for_each items (show_item is_dir listdir)).2 = Returned tt.
Proof.
  induction 1 as [|item items Hok _ IH]; simpl; [done|].
  unfold bind. by rewrite (show_item_returns _ Hok).
Qed.

Lemma for_each_show_item_terminates (items : list Path) :
  (for_each items (show_item is_dir listdir)).2 <> Diverged.
Proof.
  induction items as [|item items IH]; simpl; [done|].
  unfold bind. destruct (listdir item) as [[msg|msg]|names] eqn:Hls.
  - by rewrite (show_item_denied _ _ Hls).
  - by rewrite (show_item_raises _ _ Hls).
  - by rewrite (show_item_listed _ _ Hls).
Qed.

Lemma summary_body_terminates base :
  (summary_body is_dir listdir base).2 <> Diverged.
Proof.
  unfold summary_body, iterdir. destruct (listdir base) as [e|names]; [done|].
  rewrite bind_ret_l. destruct (select_items is_dir (children base names)); [done|].
  apply for_each_show_item_terminates.
Qed.

(** The summary, when the base directory can be listed. *)
Lemma show_summary_listed base names :
  listdir base = inr names ->
  show_summary is_dir listdir base
  = let items := sorted name (select_items is_dir (children base names)) in
    let body := match items with
                | [] => print no_subdirectories
                | _ => for_each items (show_item is_dir listdir)
                end in
    (summary_banner ++ (try_except body (fun e => Some (print (error_event e)))).1,
     (try_except body (fun e => Some (print (error_event e)))).2).
Proof.
  intros Hls. unfold show_summary.
  rewrite (bind_returned _ _ _ _ summary_banner_printed).
  unfold summary_body, iterdir. rewrite Hls, bind_ret_l. cbv zeta.
  destruct (select_items is_dir (children base names)) as [|item items] eqn:Hsel;
    [reflexivity|].
  destruct (sorted name (item :: items)) eqn:Hsorted; [|reflexivity].
  by apply sorted_nil_iff in Hsorted.
Qed.

Lemma show_summary_returns base :
  (show_summary is_dir listdir base).2 = Returned tt.
Proof.
  unfold show_summary.
  rewrite (bind_returned _ _ _ _ summary_banner_printed). simpl.
  pose proof (summary_body_terminates base) as Hterm.
  unfold try_except.
  destruct (summary_body is_dir listdir base) as [tr [[]|e|]]; done.
Qed.

End SummaryPrinter.

(** * The summary printer: results *)

(** C3: the summary never ends with an exception.  When the base directory
    cannot be listed, whatever the exception, the summary prints its banner
    and the error message and returns.  When the listing of one
    subdirectory raises a permission error (and the summary got that far),
    the block of that subdirectory is its header followed by the line
    [(Permission denied)], and the output goes on with the loop over the
    remaining subdirectories, the header of the next one first. *)
Theorem summary_error_handling (is_dir : Path -> bool)
    (listdir : Path -> exn + list string) (base_path : Path) :
  (forall e, listdir base_path = inl e ->
     show_summary is_dir listdir base_path
     = (summary_banner ++ [error_event e], Returned tt)) /\
  (forall names pre item post msg,
     listdir base_path = inr names ->
     sorted name (select_items is_dir (children base_path names))
     = pre ++ item :: post ->
     Forall (fun it => forall m, listdir it <> inl (Exception m)) pre ->
     listdir item = inl (PermissionError msg) ->
     let rest :=
       try_except (for_each post (show_item is_dir listdir))
                  (fun e => Some (print (error_event e))) in
     show_item is_dir listdir item
     = ([item_event item; permission_denied], Returned tt) /\
     (show_summary is_dir listdir base_path).1
     = summary_banner ++ (for_each pre (show_item is_dir listdir)).1
       ++ [item_event item; permission_denied] ++ rest.1 /\
     (forall next post', post = next :: post' ->
        exists tl, rest.1 = item_event next :: tl)) /\
  (show_summary is_dir listdir base_path).2 = Returned tt.
Proof.
  split; [|split].
  - intros e Hls. unfold show_summary, summary_body, iterdir. by rewrite Hls.
  - intros names pre item post msg Hls Hsorted Hpre Hitem rest.
    split; [by apply (show_item_denied _ _ _ msg)|]. split.
    + rewrite (show_summary_listed _ _ _ _ Hls). cbv zeta. rewrite Hsorted.
      assert (match pre ++ item :: post with
              | [] => print no_subdirectories
              | _ => for_each (pre ++ item :: post) (show_item is_dir listdir)
              end
              = (for_each pre (show_item is_dir listdir) ;;;
                 show_item is_dir listdir item ;;;
                 for_each post (show_item is_dir listdir))) as ->.
      { change (show_item is_dir listdir item ;;;
                for_each post (show_item is_dir listdir))
          with (for_each (item :: post) (show_item is_dir listdir)).
        rewrite <- for_each_app. by destruct pre. }
      pose proof (for_each_show_item_returns is_dir listdir pre Hpre) as Hret.
      destruct (for_each pre (show_item is_dir listdir)) as [trpre o] eqn:Epre.
      simpl in Hret. subst o.
      rewrite (try_except_bind_returned _ _ _ trpre tt eq_refl).
      rewrite (try_except_bind_returned _ _ _ _ tt
                 (show_item_denied is_dir listdir item msg Hitem)).
      simpl. reflexivity.
    + intros next post' ->. subst rest. simpl.
      destruct (try_except_trace_prefix
                  (show_item is_dir listdir next ;;;
                   for_each post' (show_item is_dir listdir))
                  (fun e => Some (print (error_event e)))) as [tl1 ->].
      destruct (bind_trace_prefix (show_item is_dir listdir next)
                  (fun _ => for_each post' (show_item is_dir listdir)))
        as [tl2 ->].
      destruct (show_item_header is_dir listdir next) as [tl3 ->].
      simpl. eauto.
  - apply show_summary_returns.
Qed.

Lemma summary_error_handling_witness :
  stdout (show_summary Demo.is_dir Demo.listdir Demo.base).1
  = stdout summary_banner ++
    [ nl +:+ icon_open_folder +:+ " a/";
      "  " +:+ icon_file +:+ " x";
      "  " +:+ icon_file +:+ " y";
      nl +:+ icon_open_folder +:+ " b/";
      nl +:+ icon_open_folder +:+ " secret/";
      "  (Permission denied)";
      nl +:+ icon_open_folder +:+ " src/";
      "  " +:+ icon_folder +:+ " util/";
      "  " +:+ icon_file +:+ " app.css.map";
      "  " +:+ icon_file +:+ " main.py" ]%string /\
  show_summary Demo.is_dir Demo.listdir (join Demo.base ["README.md"%string])
  = (summary_banner ++ [error_event (Exception "[Errno 20] Not a directory")],
     Returned tt).
Proof.
  destruct (summary_error_handling Demo.is_dir Demo.listdir Demo.base)
    as (_ & Hdenied & _).
  destruct (summary_error_handling Demo.is_dir Demo.listdir
              (join Demo.base ["README.md"%string])) as (Herr & _ & _).
  split; [|by apply Herr].
  destruct (Hdenied
              ["src"; "b"; "README.md"; "secret"; "a"; "node_modules"]%string
              [join Demo.base ["a"%string]; join Demo.base ["b"%string]]
              (join Demo.base ["secret"%string])
              [join Demo.base ["src"%string]]
              "[Errno 13] Permission denied"%string)
    as (_ & -> & _).
  - reflexivity.
  - vm_compute. reflexivity.
  - repeat constructor; intros m; vm_compute; discriminate.
  - reflexivity.
  - vm_compute. reflexivity.
Defined.

(** C9: for an empty base directory (nothing enumerated below it, an empty
    listing), the tree printer prints its two banner lines and nothing else,
    and the summary prints its banner followed by the line
    [No subdirectories found.]. *)
Theorem empty_directory (is_dir is_file : Path -> bool)
    (listdir : Path -> exn + list string) (base_path : Path) :
  listdir base_path = inr [] ->
  show_clean_structure is_dir is_file base_path [] = (tree_banner, Returned tt) /\
  length tree_banner = 2 /\
  show_summary is_dir listdir base_path
  = (summary_banner ++ [no_subdirectories], Returned tt) /\
  text_of no_subdirectories = (nl +:+ "No subdirectories found.")%string.
Proof.
  intros Hls. repeat split.
  unfold show_summary, summary_body, iterdir. by rewrite Hls.
Qed.

Lemma empty_directory_witness :
  Demo.listdir Demo.empty = inr [] /\
  show_clean_structure Demo.is_dir Demo.is_file Demo.empty [] = (tree_banner, Returned tt) /\
  show_summary Demo.is_dir Demo.listdir Demo.empty
  = (summary_banner ++ [no_subdirectories], Returned tt).
Proof.
  assert (Demo.listdir Demo.empty = inr []) as Hls by reflexivity.
  destruct (empty_directory Demo.is_dir Demo.is_file Demo.listdir Demo.empty Hls)
    as (Htree & _ & Hsum & _).
  exact (conj Hls (conj Htree Hsum)).
Defined.

Section SummaryOrder.
Variable is_dir : Path -> bool.

Lemma name_join (p : Path) (n : string) : name (join p [n]) = n.
Proof. unfold name, join; simpl. apply last_last. Qed.

Lemma elem_of_children (p x : Path) (names : list string) :
  x ∈ children p names <-> exists n, x = join p [n] /\ n ∈ names.
Proof. unfold children. apply list_elem_of_fmap. Qed.

Lemma children_name_inj (p x y : Path) (names : list string) :
  x ∈ children p names -> y ∈ children p names -> name x = name y -> x = y.
Proof.
  intros (n1 & -> & _)%elem_of_children (n2 & -> & _)%elem_of_children.
  rewrite !name_join. by intros ->.
Qed.

Lemma select_items_spec (x : Path) (all : list Path) :
  x ∈ select_items is_dir all <->
  x ∈ all /\ is_dir x = true /\ name x ∉ summary_exclude_dirs.
Proof. unfold select_items. rewrite list_elem_of_filter. tauto. Qed.

Lemma StronglySorted_weaken {A} (R R' : relation A) (l : list A) :
  (forall x y, x ∈ l -> y ∈ l -> R x y -> R' x y) ->
  StronglySorted R l -> StronglySorted R' l.
Proof.
  intros Himpl Hs. induction Hs as [|x l Hs IH Hx]; constructor.
  - apply IH. intros y z Hy Hz. apply Himpl; by right.
  - rewrite Forall_forall in *. intros y Hy.
    apply Himpl; [left | by right | by apply Hx].
Qed.

Lemma sorted_by_name (l : list Path) :
  StronglySorted name_le (sorted name l).
Proof.
  eapply StronglySorted_weaken; [|apply sorted_sorted].
  intros x y _ _ Hxy. by apply string_ltb_false_leb.
Qed.

(** A list sorted by [(not is_dir, name)] consists of its directories in
    alphabetical order followed by the rest in alphabetical order. *)
Lemma sub_items_sorted_split (l : list Path) :
  StronglySorted (key_le (sub_item_key is_dir)) l ->
  exists dirs files,
    l = dirs ++ files /\
    Forall (fun x => is_dir x = true) dirs /\
    Forall (fun x => is_dir x = false) files /\
    StronglySorted name_le dirs /\ StronglySorted name_le files.
Proof.
  induction 1 as [|x l Hs (dirs & files & -> & Hd & Hf & Hsd & Hsf) Hx].
  { exists [], []. repeat split; constructor. }
  rewrite Forall_forall in Hx.
  assert (forall y, y ∈ dirs ++ files -> is_dir y = is_dir x -> name_le x y)
    as Hname.
  { intros y Hy Heq. specialize (Hx y Hy). revert Hx.
    unfold key_le, sub_item_key, name_le; simpl. unfold ltb, pair_ordered, pair_ltb; simpl.
    rewrite Heq, Bool.eqb_reflx. apply string_ltb_false_leb. }
  destruct (is_dir x) eqn:Hdx.
  - exists (x :: dirs), files. repeat split; try done.
    + by constructor.
    + constructor; [done|]. rewrite Forall_forall in *. intros y Hy.
      apply Hname; [apply elem_of_app; by left | by apply Hd].
  - destruct dirs as [|d dirs].
    + exists [], (x :: files). repeat split; try done.
      * by constructor.
      * constructor; [done|]. rewrite Forall_forall in *. intros y Hy.
        apply Hname; [done | by apply Hf].
    + exfalso. apply Forall_cons in Hd as [Hd _].
      specialize (Hx d (list_elem_of_here _ _)). revert Hx.
      unfold key_le, sub_item_key; simpl. unfold ltb, pair_ordered, pair_ltb; simpl.
      by rewrite Hd, Hdx.
Qed.

End SummaryOrder.

(** C6: when the base directory and its selected subdirectories can be
    listed, the summary consists of the banner followed by one block per
    immediate subdirectory that is a directory and whose name is not in the
    summary's exclusion set, the blocks in alphabetical order of the names;
    the block of a subdirectory is its header followed by one line per
    immediate child, directories first and alphabetical within directories
    and within the rest.  Every entry line is printed for a child or a
    grandchild of the base directory. *)
Theorem summary_listing (is_dir : Path -> bool)
    (listdir : Path -> exn + list string) (base_path : Path)
    (names : list string) :
  listdir base_path = inr names ->
  (forall item, item ∈ select_items is_dir (children base_path names) ->
     exists ns, listdir item = inr ns) ->
  exists (items : list Path) (subs : Path -> list Path),
    show_summary is_dir listdir base_path
    = (summary_banner ++
       match items with
       | [] => [no_subdirectories]
       | _ => items ≫= (fun item =>
                item_event item :: (sub_item_event is_dir <$> subs item))
       end, Returned tt) /\
    items ≡ₚ select_items is_dir (children base_path names) /\
    (forall x, x ∈ items <->
       (exists n, x = join base_path [n] /\ n ∈ names) /\
       is_dir x = true /\ name x ∉ summary_exclude_dirs) /\
    StronglySorted name_le items /\
    (forall item, item ∈ items ->
       exists ns dirs files,
         listdir item = inr ns /\
         subs item ≡ₚ children item ns /\
         subs item = dirs ++ files /\
         Forall (fun x => is_dir x = true) dirs /\
         Forall (fun x => is_dir x = false) files /\
         StronglySorted name_le dirs /\ StronglySorted name_le files) /\
    (forall e p, e ∈ (show_summary is_dir listdir base_path).1 ->
       subject e = Some p ->
       exists n, p = join base_path [n] \/ exists m, p = join base_path [n; m]).
Proof.
  intros Hls Hok.
  set (items := sorted name (select_items is_dir (children base_path names))).
  set (subs := fun item =>
                 match listdir item with
                 | inr ns => sorted (sub_item_key is_dir) (children item ns)
                 | inl _ => []
                 end).
  assert (items ≡ₚ select_items is_dir (children base_path names)) as Hperm
    by apply sorted_perm.
  assert (forall item, item ∈ items ->
            show_item is_dir listdir item
            = (item_event item :: (sub_item_event is_dir <$> subs item),
               Returned tt)) as Hblock.
  { intros item Hin. rewrite Hperm in Hin. destruct (Hok item Hin) as [ns Hns].
    rewrite (show_item_listed _ _ _ _ Hns). unfold subs. by rewrite Hns. }
  assert (show_summary is_dir listdir base_path
          = (summary_banner ++
             match items with
             | [] => [no_subdirectories]
             | _ => items ≫= (fun item =>
                      item_event item :: (sub_item_event is_dir <$> subs item))
             end, Returned tt)) as Hout.
  { rewrite (show_summary_listed _ _ _ _ Hls). cbv zeta. fold items.
    destruct items as [|item0 items0] eqn:Hitems; [reflexivity|].
    rewrite (for_each_blocks _ _ _ Hblock). reflexivity. }
  assert (forall x, x ∈ items <->
            (exists n, x = join base_path [n] /\ n ∈ names) /\
            is_dir x = true /\ name x ∉ summary_exclude_dirs) as Hmem.
  { intros x. by rewrite Hperm, select_items_spec, elem_of_children. }
  exists items, subs. split; [exact Hout|]. split; [exact Hperm|].
  split; [exact Hmem|]. split; [apply sorted_by_name|]. split.
  - intros item Hin. rewrite Hperm in Hin. destruct (Hok item Hin) as [ns Hns].
    destruct (sub_items_sorted_split is_dir (subs item))
      as (dirs & files & Hsplit & Hrest).
    { unfold subs. rewrite Hns. apply sorted_sorted. }
    exists ns, dirs, files. split; [done|]. split; [|done].
    unfold subs. rewrite Hns. apply sorted_perm.
  - intros e p. rewrite Hout. simpl.
    rewrite !elem_of_cons. intros [->|[->|He]]; [done..|].
    destruct items as [|item0 items0] eqn:Hitems;
      [apply list_elem_of_singleton in He as ->; done|].
    rewrite <- Hitems in *. clear Hitems.
    apply list_elem_of_bind in He as (item & He & Hitem).
    pose proof Hitem as ((n & -> & _) & _)%Hmem.
    apply elem_of_cons in He as [->|He].
    + intros [= <-]. exists n. by left.
    + apply list_elem_of_fmap in He as (sub & -> & Hsub).
      rewrite Hperm in Hitem. destruct (Hok _ Hitem) as [ns Hns].
      unfold subs in Hsub. rewrite Hns, sorted_perm in Hsub.
      apply elem_of_children in Hsub as (m & -> & _).
      intros Hsubj. exists n. right. exists m.
      assert (subject (sub_item_event is_dir (join (join base_path [n]) [m]))
              = Some (join (join base_path [n]) [m])) as Hs
        by (unfold sub_item_event; by destruct (is_dir _)).
      rewrite Hs in Hsubj. injection Hsubj as <-.
      by rewrite join_join.
Qed.

Lemma summary_listing_witness :
  exists (items : list Path) (subs : Path -> list Path),
    show_summary Demo.is_dir Demo.listdir_open Demo.base
    = (summary_banner ++
       items ≫= (fun item =>
         item_event item :: (sub_item_event Demo.is_dir <$> subs item)),
       Returned tt) /\
    items = [ join Demo.base ["a"%string]; join Demo.base ["b"%string];
              join Demo.base ["secret"%string]; join Demo.base ["src"%string] ] /\
    subs (join Demo.base ["a"%string])
    = [ join Demo.base ["a"; "x"]%string; join Demo.base ["a"; "y"]%string ] /\
    subs (join Demo.base ["src"%string])
    = [ join Demo.base ["src"; "util"]%string;
        join Demo.base ["src"; "app.css.map"]%string;
        join Demo.base ["src"; "main.py"]%string ].
Proof.
  destruct (summary_listing Demo.is_dir Demo.listdir_open Demo.base
              ["src"; "b"; "README.md"; "secret"; "a"; "node_modules"]%string)
    as (items & subs & Hout & Hperm & _ & Hsorted & Hsubs & _).
  - reflexivity.
  - assert (select_items Demo.is_dir
              (children Demo.base
                 ["src"; "b"; "README.md"; "secret"; "a"; "node_modules"]%string)
            = [ join Demo.base ["src"%string]; join Demo.base ["b"%string];
                join Demo.base ["secret"%string]; join Demo.base ["a"%string] ])
      as -> by (vm_compute; reflexivity).
    apply Forall_forall.
    repeat constructor; eexists; vm_compute; reflexivity.
  - assert (items = sorted name
              (select_items Demo.is_dir
                 (children Demo.base
                    ["src"; "b"; "README.md"; "secret"; "a"; "node_modules"]%string)))
      as Hitems.
    { apply (StronglySorted_unique_strong name_le);
        [|done|apply sorted_by_name|by rewrite sorted_perm].
      intros x y Hx Hy Hxy Hyx. rewrite Hperm in Hx.
      rewrite sorted_perm in Hy.
      apply select_items_spec in Hx as (Hx & _).
      apply select_items_spec in Hy as (Hy & _).
      apply (children_name_inj _ _ _ _ Hx Hy).
      by apply String.leb_antisym. }
    assert (forall item ns, item ∈ items -> Demo.listdir_open item = inr ns ->
              subs item = sorted (sub_item_key Demo.is_dir) (children item ns))
      as Hsubs_eq.
    { intros item ns Hin Hns.
      destruct (Hsubs item Hin)
        as (ns' & dirs & files & Hns' & Hp & Hsplit & Hd & Hf & Hsd & Hsf).
      assert (ns' = ns) as -> by congruence.
      apply (StronglySorted_unique_strong (key_le (sub_item_key Demo.is_dir)));
        [| |apply sorted_sorted|by rewrite sorted_perm].
      - intros x y Hx Hy Hxy Hyx. rewrite Hp in Hx. rewrite sorted_perm in Hy.
        apply (children_name_inj _ _ _ _ Hx Hy).
        by injection (key_le_antisym _ _ _ Hxy Hyx).
      - rewrite Hsplit. apply StronglySorted_app_2; [| |].
        + intros x y Hx Hy. rewrite Forall_forall in Hd, Hf.
          unfold key_le, sub_item_key; simpl. unfold ltb, pair_ordered, pair_ltb; simpl.
          by rewrite (Hd x Hx), (Hf y Hy).
        + eapply StronglySorted_weaken; [|exact Hsd].
          rewrite Forall_forall in Hd. intros x y Hx Hy Hxy.
          unfold key_le, sub_item_key; simpl. unfold ltb, pair_ordered, pair_ltb; simpl.
          rewrite (Hd x Hx), (Hd y Hy). simpl.
          by apply string_ltb_false_leb.
        + eapply StronglySorted_weaken; [|exact Hsf].
          rewrite Forall_forall in Hf. intros x y Hx Hy Hxy.
          unfold key_le, sub_item_key; simpl. unfold ltb, pair_ordered, pair_ltb; simpl.
          rewrite (Hf x Hx), (Hf y Hy). simpl.
          by apply string_ltb_false_leb. }
    assert (items = [ join Demo.base ["a"%string]; join Demo.base ["b"%string];
                      join Demo.base ["secret"%string];
                      join Demo.base ["src"%string] ]) as Hitems'
      by (rewrite Hitems; vm_compute; reflexivity).
    exists items, subs. split; [|split; [exact Hitems'|split]].
    + rewrite Hout. by rewrite Hitems'.
    + rewrite (Hsubs_eq _ ["y"; "x"]%string);
        [vm_compute; reflexivity | rewrite Hitems'; by left | reflexivity].
    + rewrite (Hsubs_eq _ ["main.py"; "util"; "app.css.map"]%string);
        [vm_compute; reflexivity
        | rewrite Hitems'; do 3 right; by left | reflexivity].
Defined.

(** * The order of enumeration *)

Section EnumerationOrder.
Variable is_dir : Path -> bool.

Lemma parts_join (base : Path) (rel : list string) :
  parts (join base rel) = parts base ++ rel.
Proof. unfold parts, join; simpl. by case_decide. Qed.

(** Below one base directory, the parts tell the paths apart. *)
Lemma parts_inj_below (base x y : Path) :
  is_ancestor base x -> is_ancestor base y -> parts x = parts y -> x = y.
Proof.
  intros (r1 & _ & ->) (r2 & _ & ->). rewrite !parts_join.
  by intros ->%app_inv_head.
Qed.

Lemma sorted_rglob_unique (base : Path) (rglob1 rglob2 : list Path) :
  Forall (is_ancestor base) rglob1 -> rglob1 ≡ₚ rglob2 ->
  sorted parts rglob1 = sorted parts rglob2.
Proof.
  intros Hbelow. apply sorted_unique. rewrite Forall_forall in Hbelow.
  intros x y Hx Hy. apply (parts_inj_below base); auto.
Qed.

Lemma sorted_items_unique (base : Path) (names1 names2 : list string) :
  names1 ≡ₚ names2 ->
  sorted name (select_items is_dir (children base names1))
  = sorted name (select_items is_dir (children base names2)).
Proof.
  intros Hperm. apply sorted_unique.
  - intros x y (Hx & _)%select_items_spec (Hy & _)%select_items_spec.
    by apply (children_name_inj base _ _ names1).
  - unfold select_items, children. by rewrite Hperm.
Qed.

Lemma sorted_sub_items_unique (item : Path) (names1 names2 : list string) :
  names1 ≡ₚ names2 ->
  sorted (sub_item_key is_dir) (children item names1)
  = sorted (sub_item_key is_dir) (children item names2).
Proof.
  intros Hperm. apply sorted_unique.
  - intros x y Hx Hy [= _ Hname].
    by apply (children_name_inj item _ _ names1).
  - unfold children. by rewrite Hperm.
Qed.

Lemma show_item_same (listdir1 listdir2 : Path -> exn + list string)
    (item : Path) :
  same_listing (listdir1 item) (listdir2 item) ->
  show_item is_dir listdir1 item = show_item is_dir listdir2 item.
Proof.
  unfold same_listing.
  destruct (listdir1 item) as [e1|ns1] eqn:H1,
           (listdir2 item) as [e2|ns2] eqn:H2; try done.
  - intros ->. unfold show_item.
    by rewrite (show_children_raises _ _ _ _ H1),
               (show_children_raises _ _ _ _ H2).
  - intros Hperm.
    rewrite (show_item_listed _ _ _ _ H1), (show_item_listed _ _ _ _ H2).
    by rewrite (sorted_sub_items_unique item ns1 ns2 Hperm).
Qed.

Lemma show_summary_same (listdir1 listdir2 : Path -> exn + list string)
    (base : Path) :
  (forall p, same_listing (listdir1 p) (listdir2 p)) ->
  show_summary is_dir listdir1 base = show_summary is_dir listdir2 base.
Proof.
  intros Hsame. pose proof (Hsame base) as Hbase. unfold same_listing in Hbase.
  destruct (listdir1 base) as [e1|ns1] eqn:H1,
           (listdir2 base) as [e2|ns2] eqn:H2; try done.
  - subst e2. unfold show_summary, summary_body, iterdir. by rewrite H1, H2.
  - rewrite (show_summary_listed _ _ _ _ H1), (show_summary_listed _ _ _ _ H2).
    cbv zeta. rewrite (sorted_items_unique base ns1 ns2 Hbase).
    destruct (sorted name (select_items is_dir (children base ns2)));
      [reflexivity|].
    rewrite (for_each_ext _ (show_item is_dir listdir1) (show_item is_dir listdir2));
      [reflexivity|].
    intros x _. by apply show_item_same.
Qed.

End EnumerationOrder.

(** C10: for one file system (the same paths below the base directory with
    the same classification, the same listings up to the order of the
    names), the tree printer and the summary printer produce the same
    output and the same outcome whatever the order in which the paths and
    the names are enumerated. *)
Theorem output_independent_of_enumeration_order (is_dir is_file : Path -> bool)
    (listdir1 listdir2 : Path -> exn + list string)
    (base_path : Path) (rglob1 rglob2 : list Path) :
  Forall (is_ancestor base_path) rglob1 ->
  rglob1 ≡ₚ rglob2 ->
  (forall p, same_listing (listdir1 p) (listdir2 p)) ->
  show_clean_structure is_dir is_file base_path rglob1
  = show_clean_structure is_dir is_file base_path rglob2 /\
  show_summary is_dir listdir1 base_path = show_summary is_dir listdir2 base_path.
Proof.
  intros Hbelow Hperm Hsame. split.
  - unfold show_clean_structure.
    by rewrite (sorted_rglob_unique base_path rglob1 rglob2 Hbelow Hperm).
  - by apply show_summary_same.
Qed.

Lemma output_independent_of_enumeration_order_witness :
  show_clean_structure Demo.is_dir Demo.is_file Demo.base Demo.rglob
  = show_clean_structure Demo.is_dir Demo.is_file Demo.base Demo.rglob' /\
  show_summary Demo.is_dir Demo.listdir Demo.base
  = show_summary Demo.is_dir Demo.listdir' Demo.base.
Proof.
  apply output_independent_of_enumeration_order.
  - repeat constructor; eexists; (split; [|reflexivity]); discriminate.
  - unfold Demo.rglob, Demo.rglob'.
    rewrite reverse_Permutation. apply Permutation_app_comm.
  - intros p. unfold same_listing, Demo.listdir'.
    destruct (Demo.listdir p); [reflexivity|].
    symmetry. apply reverse_Permutation.
Defined.

(** * Further properties of the filter *)

Section FilterRules.

Lemma exclude_dirs_has_build : "build"%string ∈ exclude_dirs.
Proof. by_compute. Qed.

Lemma rfind_app (c : ascii) (pre s : string) :
  Str.rfind c (pre +:+ s)
  = match Str.rfind c s with
    | Some j => Some (String.length pre + j)
    | None => Str.rfind c pre
    end.
Proof.
  induction pre as [|a pre IH].
  - change (EmptyString +:+ s) with s. by destruct (Str.rfind c s).
  - change (Str.rfind c (String a pre +:+ s))
      with (match Str.rfind c (pre +:+ s) with
            | Some i => Some (S i)
            | None => if Ascii.eqb a c then Some O else None
            end).
    rewrite IH. by destruct (Str.rfind c s).
Qed.

Lemma slice_from_add (pre s : string) (j : nat) :
  Str.slice_from (String.length pre + j) (pre +:+ s) = Str.slice_from j s.
Proof. induction pre as [|a pre IH]; [done | exact IH]. Qed.

(** The suffix of a name that ends with a dotted extension. *)
Lemma suffix_of_extension (path : Path) (pre ext : string) (j : nat) :
  name path = pre +:+ ext ->
  Str.rfind "." ext = Some j -> (0 < j)%nat -> (j < String.length ext - 1)%nat ->
  suffix path = Str.slice_from j ext.
Proof.
  intros Hname Hj H0 H1. unfold suffix. rewrite Hname, rfind_app, Hj.
  rewrite string_length_app, slice_from_add.
  assert ((0 <? String.length pre + j)%nat = true) as -> by (apply Nat.ltb_lt; lia).
  assert ((String.length pre + j <? String.length pre + String.length ext - 1)%nat
          = true) as -> by (apply Nat.ltb_lt; lia).
  reflexivity.
Qed.

Lemma star_patterns (pattern : string) :
  pattern ∈ auto_generated_files -> Str.startswith pattern "*" = true ->
  pattern = "*.css.map"%string \/ pattern = "*.js.map"%string.
Proof.
  intros Hin Hs. apply elem_of_elements in Hin. revert pattern Hin Hs.
  apply (proj1 (Forall_forall
                  (fun pattern : string =>
                     Str.startswith pattern "*" = true ->
                     pattern = "*.css.map"%string \/ pattern = "*.js.map"%string)
                  (elements auto_generated_files))).
  by_compute.
Qed.

Lemma should_include_join_excluded (p : Path) (rel : list string) (part : string) :
  part ∈ parts p ->
  part ∈ exclude_dirs \/ part = "static"%string ->
  should_include (join p rel) = false.
Proof.
  intros Hin Hpart. apply should_include_false.
  assert (part ∈ parts (join p rel)) as Hin'
    by (rewrite parts_join, elem_of_app; by left).
  destruct Hpart as [?| ->]; [left; eauto | tauto].
Qed.

End FilterRules.

(** X1: the filter accepts a path exactly when no segment of it is an
    excluded directory name or [static], its name is not an excluded file
    name, its suffix is not an excluded extension, and no pattern of the
    auto-generated set matches its name. *)
Theorem filter_accepts_iff (path : Path) :
  should_include path = true <->
    (forall part, part ∈ parts path ->
       (part ∉ exclude_dirs) /\ part <> "static"%string) /\
    (name path ∉ exclude_files) /\
    (suffix path ∉ exclude_extensions) /\
    (forall pattern, pattern ∈ auto_generated_files ->
       ~ matches_by_rule pattern (name path)).
Proof.
  rewrite should_include_true. split.
  - intros (H1 & H2 & H3 & H4 & _ & H6). repeat split; try assumption.
    + by apply H1.
    + by intros ->.
    + intros pattern Hin Hm%pattern_matches_spec. rewrite H4 in Hm; done.
  - intros (H1 & H2 & H3 & H4). repeat split; try assumption.
    + intros part Hin. by apply H1.
    + intros pattern Hin. apply not_true_iff_false.
      intros Hm%pattern_matches_spec. by apply (H4 pattern).
    + intros Hin. destruct (H1 _ Hin) as [Hno _].
      apply Hno, exclude_dirs_has_build.
    + intros Hin. by destruct (H1 _ Hin) as [_ Hno].
Qed.

(** X2: a path with a segment that is an excluded directory name or
    [static] hides everything below it: every path obtained by appending
    segments is excluded as well. *)
Theorem directory_exclusion_inherited (p : Path) (rel : list string)
    (part : string) :
  part ∈ parts p ->
  part ∈ exclude_dirs \/ part = "static"%string ->
  should_include (join p rel) = false.
Proof. apply should_include_join_excluded. Qed.

Lemma directory_exclusion_inherited_witness :
  should_include (join (mkPath "" ["web"; "node_modules"]%string)
                       ["react"; "lib"; "index.js"]%string) = false.
Proof.
  apply (directory_exclusion_inherited _ _ "node_modules").
  - by_compute.
  - left. by_compute.
Defined.

(** X3: the two wildcard patterns of the auto-generated set never decide:
    a name that one of them matches has the suffix [.map], which is an
    excluded extension, so the filter has returned before the loop over the
    patterns. *)
Theorem wildcard_patterns_shadowed (path : Path) (pattern : string) :
  pattern ∈ auto_generated_files ->
  Str.startswith pattern "*" = true ->
  pattern_matches pattern (name path) = true ->
  suffix path = ".map"%string /\ suffix path ∈ exclude_extensions.
Proof.
  intros Hin Hstar Hm.
  assert (suffix path = ".map"%string) as ->; [|split; [done | by_compute]].
  apply pattern_matches_spec in Hm.
  destruct (star_patterns pattern Hin Hstar) as [-> | ->];
    destruct Hm as [pre Hname].
  - by rewrite (suffix_of_extension path pre ".css.map" 4 Hname eq_refl)
      by (simpl; lia).
  - by rewrite (suffix_of_extension path pre ".js.map" 3 Hname eq_refl)
      by (simpl; lia).
Qed.

Lemma wildcard_patterns_shadowed_witness :
  suffix (mkPath "" ["dist2"; "bundle.min.js.map"]%string) = ".map"%string /\
  suffix (mkPath "" ["dist2"; "bundle.min.js.map"]%string) ∈ exclude_extensions.
Proof.
  apply (wildcard_patterns_shadowed _ "*.js.map").
  - by_compute.
  - reflexivity.
  - vm_compute. reflexivity.
Defined.

(** X4: a path whose name is an excluded file name is excluded by the
    filter. *)
Theorem excluded_file_name_is_filtered (path : Path) :
  name path ∈ exclude_files -> should_include path = false.
Proof. intros H. apply should_include_false. tauto. Qed.

Lemma excluded_file_name_is_filtered_witness :
  should_include (mkPath "/" ["srv"; "app"; ".env.local"]%string) = false.
Proof. apply excluded_file_name_is_filtered. by_compute. Defined.

(** * Further properties of the tree printer *)

Section TreeContents.
Variable is_dir : Path -> bool.
Implicit Types (base path d : Path) (S : gset Path) (tr : list event).

Lemma note_dirs_are_dirs (ch : list Path) : forall (acc : list Path) S,
  Forall (fun d => is_dir d = true) acc ->
  Forall (fun d => is_dir d = true) (note_dirs is_dir ch (acc, S)).1.
Proof.
  induction ch as [|c ch IH]; intros acc S Hacc; [done|].
  unfold note_dirs; simpl. unfold note_dir at 2; simpl.
  destruct (is_dir c) eqn:Hc; simpl; [case_bool_decide; simpl|];
    try (by apply IH).
  apply IH. apply Forall_app. by repeat constructor.
Qed.

Lemma elem_of_chain_on_path base (rel : list string) d :
  d ∈ chain base rel <-> on_path base d (join base rel).
Proof.
  rewrite elem_of_chain. unfold on_path, is_ancestor. split.
  - intros (r & k & Hr & -> & ->). split; [eauto|].
    destruct k as [|x k]; [left; by rewrite app_nil_r | right].
    exists (x :: k). by rewrite join_join.
  - intros [(r & Hr & ->) [Heq|(k & Hk & Heq)]].
    + apply join_inj in Heq as ->. exists rel, []. by rewrite app_nil_r.
    + rewrite join_join in Heq. apply join_inj in Heq as ->. eauto.
Qed.




Variable is_file : Path -> bool.

Lemma visit_join_new base (rel : list string) S :
  exists new,
    visit is_dir is_file base (join base rel) S
    = ((dir_event base <$> reverse new) ++
       (if is_file (join base rel)
        then [file_event base (join base rel)] else []),
       Returned (list_to_set new ∪ S)) /\
    (forall d, d ∈ new <->
       (d ∉ S) /\ is_dir d = true /\ on_path base d (join base rel)).
Proof.
  unfold visit. rewrite climb_join
    by (change (length rel <= depth (join base rel)); rewrite depth_join; lia).
  pose proof (note_dirs_are_dirs (chain base rel) [] S (Forall_nil_2 _)) as Hdirs.
  destruct (note_dirs_spec is_dir (chain base rel) [] S)
    as (new & Heq & Hsub & _ & Hnew & Hall).
  rewrite Heq in Hdirs |- *. simpl in Hdirs. rewrite Forall_forall in Hdirs.
  exists new. split.
  - simpl. rewrite (for_each_lines _ _ (dir_event base)).
    2:{ intros d Hd. rewrite elem_of_reverse in Hd.
        apply (sublist_subseteq _ _ Hsub), elem_of_chain in Hd
          as (r & k & _ & _ & ->).
        apply print_dir_join. }
    destruct (is_file (join base rel)).
    + rewrite print_file_join. reflexivity.
    + unfold bind; simpl. by rewrite app_nil_r.
  - intros d. rewrite <- elem_of_chain_on_path. split.
    + intros Hd. repeat split; [by apply Hnew | by apply Hdirs|].
      by apply (sublist_subseteq _ _ Hsub).
    + intros (HdS & Hdir & Hch). by destruct (Hall d Hch Hdir).
Qed.

Lemma file_lines_app tr1 tr2 :
  file_lines (tr1 ++ tr2) = file_lines tr1 ++ file_lines tr2.
Proof. apply omap_app. Qed.

Lemma file_lines_dir_events base (l : list Path) :
  file_lines (dir_event base <$> l) = [].
Proof. induction l as [|d l IH]; simpl; [done | apply IH]. Qed.

Lemma tree_entry_dir base (rel : list string) :
  rel <> [] -> is_dir (join base rel) = true ->
  tree_entry is_dir is_file base (dir_event base (join base rel)).
Proof.
  intros Hrel Hdir. exists rel. split; [done|]. left. split; [|done].
  unfold dir_event, indent, name. rewrite depth_join. simpl.
  replace (depth base + length rel - depth base) with (length rel) by lia.
  do 4 f_equal. destruct rel as [|x rel] using rev_ind; [done|].
  by rewrite app_assoc, !last_last.
Qed.

Lemma tree_entry_file base (rel : list string) :
  rel <> [] -> is_file (join base rel) = true ->
  should_include (join base rel) = true ->
  tree_entry is_dir is_file base (file_event base (join base rel)).
Proof.
  intros Hrel Hfile Hincl. exists rel. split; [done|]. right.
  split; [|done].
  unfold file_event, indent, name. rewrite depth_join. simpl.
  replace (depth base + length rel - depth base) with (length rel) by lia.
  do 4 f_equal. destruct rel as [|x rel] using rev_ind; [done|].
  by rewrite app_assoc, !last_last.
Qed.

(** What the loop prints, for paths below the base. *)
Lemma tree_loop_contents base (paths : list Path) :
  Forall (is_ancestor base) paths -> forall S,
  exists tr,
    tree_loop is_dir is_file base paths S = (tr, Returned tt) /\
    file_lines tr
    = filter (fun p => should_include p = true /\ is_file p = true) paths /\
    (forall d, d ∈ dir_lines tr <->
       (d ∉ S) /\ is_dir d = true /\
       exists p, p ∈ paths /\ should_include p = true /\ on_path base d p) /\
    Forall (tree_entry is_dir is_file base) tr.
Proof.
  induction 1 as [|path rest (rel & Hrel & ->) _ IH]; intros S; simpl.
  { exists []. split; [done|]. split; [done|]. split; [|done].
    intros d. split; [by intros ?%elem_of_nil|].
    intros (_ & _ & p & Hp & _). by apply elem_of_nil in Hp. }
  destruct (should_include (join base rel)) eqn:Hincl.
  - destruct (visit_join_new base rel S) as (new & Hvisit & Hnew).
    destruct (IH (list_to_set new ∪ S)) as (tr2 & Hloop & Hfiles & Hdirs & Hfmt).
    exists (((dir_event base <$> reverse new) ++
             (if is_file (join base rel)
              then [file_event base (join base rel)] else [])) ++ tr2).
    split; [|split; [|split]].
    + rewrite (bind_returned _ _ _ _ Hvisit), Hloop. reflexivity.
    + rewrite !file_lines_app, file_lines_dir_events, Hfiles, filter_cons.
      simpl. destruct (is_file (join base rel)) eqn:Hfile; simpl.
      * by rewrite decide_True.
      * rewrite decide_False; [done | by intros [_ ?]].
    + intros d. rewrite !dir_lines_app, dir_lines_dir_events.
      assert (dir_lines (if is_file (join base rel)
                         then [file_event base (join base rel)] else []) = [])
        as -> by (by destruct (is_file _)).
      rewrite app_nil_r, elem_of_app, elem_of_reverse, Hnew, Hdirs.
      split.
      * intros [(HdS & Hdir & Hon)|(HdS & Hdir & p & Hp & Hpi & Hon)].
        -- repeat split; try done. exists (join base rel).
           split; [left | done].
        -- repeat split; [set_solver | done |]. exists p.
           split; [by right | done].
      * intros (HdS & Hdir & p & Hp & Hpi & Hon).
        destruct (decide (d ∈ new)) as [Hd|Hd]; [left; by apply Hnew|].
        apply elem_of_cons in Hp as [->|Hp]; [left; done|].
        right. repeat split; [set_solver | done |]. eauto.
    + rewrite Forall_app. split; [|done]. rewrite Forall_app. split.
      * apply Forall_forall. intros e (d & -> & Hd)%list_elem_of_fmap.
        rewrite elem_of_reverse in Hd.
        apply Hnew in Hd as (_ & Hdir & ((r & Hr & ->) & _)).
        by apply tree_entry_dir.
      * destruct (is_file (join base rel)) eqn:Hfile; [|done].
        repeat constructor. by apply tree_entry_file.
  - destruct (IH S) as (tr2 & Hloop & Hfiles & Hdirs & Hfmt).
    exists tr2. split; [done|]. split; [|split; [|done]].
    + rewrite Hfiles, filter_cons, decide_False; [done|].
      intros [? _]. congruence.
    + intros d. rewrite Hdirs. split.
      * intros (HdS & Hdir & p & Hp & Hpi & Hon). repeat split; try done.
        exists p. split; [by right | done].
      * intros (HdS & Hdir & p & Hp & Hpi & Hon). repeat split; try done.
        exists p. apply elem_of_cons in Hp as [->|Hp]; [congruence | done].
Qed.

Lemma tree_loop_skips base (paths : list Path) S :
  Forall (fun p => should_include p = false) paths ->
  tree_loop is_dir is_file base paths S = ([], Returned tt).
Proof.
  induction 1 as [|path rest Hp _ IH]; simpl; [done|]. by rewrite Hp.
Qed.



End TreeContents.

(** X5: when a segment of the base directory itself is an excluded
    directory name or [static], the filter rejects every path below it and
    the tree printer prints its banner and nothing else. *)
Theorem excluded_base_prints_nothing (is_dir is_file : Path -> bool)
    (base_path : Path) (rglob : list Path) (part : string) :
  part ∈ parts base_path ->
  part ∈ exclude_dirs \/ part = "static"%string ->
  Forall (is_ancestor base_path) rglob ->
  show_clean_structure is_dir is_file base_path rglob
  = (tree_banner, Returned tt).
Proof.
  intros Hin Hpart Hbelow. unfold show_clean_structure.
  rewrite (bind_returned _ _ _ _ tree_banner_printed).
  rewrite tree_loop_skips; [done|].
  rewrite <- (sorted_perm parts rglob) in Hbelow.
  eapply Forall_impl; [exact Hbelow|]. intros p (rel & _ & ->).
  by apply (should_include_join_excluded _ _ part).
Qed.

Lemma excluded_base_prints_nothing_witness :
  show_clean_structure Demo.is_dir Demo.is_file
    (mkPath "/" ["home"; "dev"; "build"; "proj"]%string)
    [ join (mkPath "/" ["home"; "dev"; "build"; "proj"]%string) ["main.py"%string];
      join (mkPath "/" ["home"; "dev"; "build"; "proj"]%string)
           ["src"; "app.py"]%string ]
  = (tree_banner, Returned tt).
Proof.
  apply (excluded_base_prints_nothing _ _ _ _ "build").
  - by_compute.
  - left. by_compute.
  - repeat constructor; eexists; (split; [|reflexivity]); discriminate.
Defined.

(** X6: for paths enumerated below the base, the file lines of the tree are
    exactly the enumerated paths that pass the filter and are files, in
    sorted order, one line per enumerated path. *)
Theorem tree_file_lines (is_dir is_file : Path -> bool)
    (base_path : Path) (rglob : list Path) :
  Forall (is_ancestor base_path) rglob ->
  file_lines (show_clean_structure is_dir is_file base_path rglob).1
  = filter (fun p => should_include p = true /\ is_file p = true)
           (sorted parts rglob).
Proof.
  intros Hbelow. unfold show_clean_structure.
  rewrite <- (sorted_perm parts rglob) in Hbelow.
  destruct (tree_loop_contents is_dir is_file base_path _ Hbelow ∅)
    as (tr & Hloop & Hfiles & _).
  rewrite (bind_returned _ _ _ _ tree_banner_printed), Hloop. simpl.
  exact Hfiles.
Qed.

Lemma tree_file_lines_witness :
  file_lines (show_clean_structure Demo.is_dir Demo.is_file Demo.base Demo.rglob).1
  = [ join Demo.base ["README.md"%string];
      join Demo.base ["a"; "x"]%string; join Demo.base ["a"; "y"]%string;
      join Demo.base ["src"; "main.py"]%string;
      join Demo.base ["src"; "util"; "helper.py"]%string ].
Proof.
  rewrite tree_file_lines.
  - vm_compute. reflexivity.
  - repeat constructor; eexists; (split; [|reflexivity]); discriminate.
Defined.

(** X7: for paths enumerated below the base, a directory gets a header in
    the tree exactly when it is a directory below the base that is, or lies
    above, an enumerated path that passes the filter. *)
Theorem tree_dir_headers (is_dir is_file : Path -> bool)
    (base_path : Path) (rglob : list Path) (d : Path) :
  Forall (is_ancestor base_path) rglob ->
  d ∈ dir_lines (show_clean_structure is_dir is_file base_path rglob).1 <->
  is_dir d = true /\
  exists p, p ∈ rglob /\ should_include p = true /\ on_path base_path d p.
Proof.
  intros Hbelow. unfold show_clean_structure.
  rewrite <- (sorted_perm parts rglob) in Hbelow.
  destruct (tree_loop_contents is_dir is_file base_path _ Hbelow ∅)
    as (tr & Hloop & _ & Hdirs & _).
  rewrite (bind_returned _ _ _ _ tree_banner_printed), Hloop. simpl.
  rewrite Hdirs. split.
  - intros (_ & Hdir & p & Hp & Hrest). split; [done|]. exists p.
    split; [|done]. by rewrite sorted_perm in Hp.
  - intros (Hdir & p & Hp & Hrest). split; [set_solver|]. split; [done|].
    exists p. split; [|done]. by rewrite sorted_perm.
Qed.

Lemma tree_dir_headers_witness :
  join Demo.base ["src"%string]
  ∈ dir_lines (show_clean_structure Demo.is_dir Demo.is_file Demo.base Demo.rglob).1.
Proof.
  apply tree_dir_headers.
  - repeat constructor; eexists; (split; [|reflexivity]); discriminate.
  - split; [reflexivity|].
    exists (join Demo.base ["src"; "util"; "helper.py"]%string).
    split; [by_compute|]. split; [vm_compute; reflexivity|].
    split; [by exists ["src"%string] |].
    right. by exists ["util"; "helper.py"]%string.
Defined.

(** X8: for paths enumerated below the base, every line of the tree after
    the banner is an entry line: for the path [base_path / rel] it consists
    of two spaces for each level below the first, the icon of a directory
    or of a file, the last segment, and a slash after a directory; a file
    line is printed only for a file that passes the filter, a directory line
    only for a directory. *)
Theorem tree_line_format (is_dir is_file : Path -> bool)
    (base_path : Path) (rglob : list Path) :
  Forall (is_ancestor base_path) rglob ->
  exists tr,
    (show_clean_structure is_dir is_file base_path rglob).1 = tree_banner ++ tr /\
    Forall (tree_entry is_dir is_file base_path) tr.
Proof.
  intros Hbelow. unfold show_clean_structure.
  rewrite <- (sorted_perm parts rglob) in Hbelow.
  destruct (tree_loop_contents is_dir is_file base_path _ Hbelow ∅)
    as (tr & Hloop & _ & _ & Hfmt).
  exists tr. split; [|done].
  by rewrite (bind_returned _ _ _ _ tree_banner_printed), Hloop.
Qed.

Lemma tree_line_format_witness :
  exists tr,
    (show_clean_structure Demo.is_dir Demo.is_file Demo.base Demo.rglob).1
    = tree_banner ++ tr /\
    Forall (tree_entry Demo.is_dir Demo.is_file Demo.base) tr.
Proof.
  apply tree_line_format.
  repeat constructor; eexists; (split; [|reflexivity]); discriminate.
Defined.




(** * Further properties of the summary printer *)

Section SummaryContents.
Variable is_dir : Path -> bool.
Variable listdir : Path -> exn + list string.

Lemma for_each_events {A} (l : list A) (body : A -> M unit) (e : event) :
  e ∈ (for_each l body).1 -> exists x, x ∈ l /\ e ∈ (body x).1.
Proof.
  induction l as [|x l IH]; simpl; [by intros ?%elem_of_nil|].
  unfold bind. destruct (body x) as [tr [[]|err|]] eqn:Hbody; simpl.
  - intros [He|He]%elem_of_app.
    + exists x. rewrite Hbody. split; [left | done].
    + destruct (IH He) as (y & Hy & Hey). exists y. split; [by right | done].
  - intros He. exists x. rewrite Hbody. split; [left | done].
  - intros He. exists x. rewrite Hbody. split; [left | done].
Qed.

Lemma show_item_events (item : Path) (e : event) :
  e ∈ (show_item is_dir listdir item).1 ->
  e = item_event item \/ e = permission_denied \/
  exists ns m, listdir item = inr ns /\ m ∈ ns /\
               e = sub_item_event is_dir (join item [m]).
Proof.
  destruct (listdir item) as [[msg|msg]|ns] eqn:Hls.
  - rewrite (show_item_denied _ _ _ _ Hls). simpl.
    rewrite !elem_of_cons. intros [?|[?|?%elem_of_nil]]; auto. done.
  - rewrite (show_item_raises _ _ _ _ Hls). simpl.
    intros ?%list_elem_of_singleton. auto.
  - rewrite (show_item_listed _ _ _ _ Hls). simpl.
    intros [?|(x & -> & Hx)%list_elem_of_fmap]%elem_of_cons; [auto|].
    rewrite sorted_perm in Hx. apply elem_of_children in Hx as (m & -> & Hm).
    right; right. eauto.
Qed.

Lemma try_except_events {A} (m : M A) h (e : event) :
  e ∈ (try_except m h).1 ->
  e ∈ m.1 \/ exists err handler, h err = Some handler /\ e ∈ handler.1.
Proof.
  unfold try_except. destruct m as [tr [a|err|]]; simpl; auto.
  destruct (h err) as [[tr' o]|] eqn:Hh; simpl; auto.
  intros [?|?]%elem_of_app; [auto|]. right. exists err, (tr', o). auto.
Qed.

Lemma summary_exclude_dirs_coarser (n : string) :
  n ∈ summary_exclude_dirs -> n ∈ exclude_dirs.
Proof.
  intros Hn%elem_of_elements. revert n Hn.
  apply (proj1 (Forall_forall (fun n : string => n ∈ exclude_dirs)
                  (elements summary_exclude_dirs))).
  by_compute.
Qed.

End SummaryContents.

(** X11: an exception other than a permission error raised while a
    subdirectory is listed ends the summary: after the blocks of the
    subdirectories before it, the header of that subdirectory and the error
    message are printed, no later subdirectory is listed, and the summary
    returns. *)
Theorem summary_stops_on_other_exception (is_dir : Path -> bool)
    (listdir : Path -> exn + list string) (base_path : Path)
    (names : list string) (pre : list Path) (item : Path) (post : list Path)
    (msg : string) :
  listdir base_path = inr names ->
  sorted name (select_items is_dir (children base_path names))
  = pre ++ item :: post ->
  Forall (fun it => forall m, listdir it <> inl (Exception m)) pre ->
  listdir item = inl (Exception msg) ->
  show_summary is_dir listdir base_path
  = (summary_banner ++ (for_each pre (show_item is_dir listdir)).1
     ++ [item_event item; error_event (Exception msg)], Returned tt).
Proof.
  intros Hls Hsorted Hpre Hitem.
  rewrite (show_summary_listed _ _ _ _ Hls). cbv zeta. rewrite Hsorted.
  assert (match pre ++ item :: post with
          | [] => print no_subdirectories
          | _ => for_each (pre ++ item :: post) (show_item is_dir listdir)
          end
          = (for_each pre (show_item is_dir listdir) ;;;
             show_item is_dir listdir item ;;;
             for_each post (show_item is_dir listdir))) as ->.
  { change (show_item is_dir listdir item ;;;
            for_each post (show_item is_dir listdir))
      with (for_each (item :: post) (show_item is_dir listdir)).
    rewrite <- for_each_app. by destruct pre. }
  pose proof (for_each_show_item_returns is_dir listdir pre Hpre) as Hret.
  destruct (for_each pre (show_item is_dir listdir)) as [trpre o] eqn:Epre.
  simpl in Hret. subst o.
  rewrite (try_except_bind_returned _ _ _ trpre tt eq_refl).
  unfold bind at 1 2. rewrite (show_item_raises _ _ _ _ Hitem). simpl.
  reflexivity.
Qed.

Lemma summary_stops_on_other_exception_witness :
  show_summary Demo.is_dir Demo.listdir (join Demo.base ["src"%string])
  = (summary_banner ++
     [ item_event (join Demo.base ["src"; "util"]%string) ] ++
     [ sub_item_event Demo.is_dir (join Demo.base ["src"; "util"; "helper.py"]%string) ],
     Returned tt) /\
  show_summary Demo.is_dir
    (fun p => if decide (p = join Demo.base ["a"%string])
              then inl (Exception "[Errno 5] Input/output error")
              else Demo.listdir p)
    Demo.base
  = (summary_banner ++
     [ item_event (join Demo.base ["a"%string]);
       error_event (Exception "[Errno 5] Input/output error") ],
     Returned tt).
Proof.
  split; [vm_compute; reflexivity|].
  rewrite (summary_stops_on_other_exception Demo.is_dir _ Demo.base
             ["src"; "b"; "README.md"; "secret"; "a"; "node_modules"]%string
             []
             (join Demo.base ["a"%string])
             [join Demo.base ["b"%string]; join Demo.base ["secret"%string];
              join Demo.base ["src"%string]]
             "[Errno 5] Input/output error").
  - reflexivity.
  - reflexivity.
  - vm_compute. reflexivity.
  - constructor.
  - reflexivity.
Defined.

(** X12: whatever the listings return, every entry line of the summary is
    either the header of an immediate child of the base directory that is a
    directory and whose name is not in the summary's exclusion set, or the
    line of an immediate child of such a directory: files at the top level,
    excluded names at the top level and anything deeper are never
    printed. *)
Theorem summary_entries (is_dir : Path -> bool)
    (listdir : Path -> exn + list string) (base_path : Path)
    (e : event) (p : Path) :
  e ∈ (show_summary is_dir listdir base_path).1 ->
  subject e = Some p ->
  exists names n,
    listdir base_path = inr names /\ n ∈ names /\
    is_dir (join base_path [n]) = true /\ (n ∉ summary_exclude_dirs) /\
    ((e = item_event (join base_path [n]) /\ p = join base_path [n]) \/
     exists ns m,
       listdir (join base_path [n]) = inr ns /\ m ∈ ns /\
       e = sub_item_event is_dir (join base_path [n; m]) /\
       p = join base_path [n; m]).
Proof.
  intros He Hsubj. destruct (listdir base_path) as [err|names] eqn:Hls.
  { exfalso. revert He. unfold show_summary, summary_body, iterdir.
    rewrite Hls. simpl. rewrite !elem_of_cons.
    intros [->|[->|[->|?%elem_of_nil]]]; done. }
  rewrite (show_summary_listed _ _ _ _ Hls) in He. cbv zeta in He. simpl in He.
  rewrite !elem_of_cons in He. destruct He as [->|[->|He]]; [done..|].
  apply try_except_events in He as [He|(err & handler & [= <-] & He)].
  2:{ apply list_elem_of_singleton in He as ->. done. }
  destruct (sorted name (select_items is_dir (children base_path names)))
    as [|item0 items0] eqn:Hitems.
  { apply list_elem_of_singleton in He as ->. done. }
  rewrite <- Hitems in He.
  apply for_each_events in He as (item & Hitem & He).
  rewrite sorted_perm in Hitem.
  apply select_items_spec in Hitem as ((n & -> & Hn)%elem_of_children & Hdir & Hex).
  rewrite name_join in Hex.
  exists names, n. repeat split; try done.
  apply show_item_events in He as [->|[->|(ns & m & Hns & Hm & ->)]].
  - left. split; [done|]. by injection Hsubj.
  - done.
  - right. exists ns, m. rewrite join_join in Hsubj |- *. simpl in *.
    split; [done|]. split; [done|]. split; [done|].
    revert Hsubj. unfold sub_item_event.
    destruct (is_dir (join base_path [n; m])); simpl; congruence.
Qed.

Lemma summary_entries_witness :
  exists names n,
    Demo.listdir Demo.base = inr names /\ n ∈ names /\
    Demo.is_dir (join Demo.base [n]) = true /\ (n ∉ summary_exclude_dirs) /\
    ((item_event (join Demo.base ["secret"%string]) = item_event (join Demo.base [n]) /\
      join Demo.base ["secret"%string] = join Demo.base [n]) \/
     exists ns m,
       Demo.listdir (join Demo.base [n]) = inr ns /\ m ∈ ns /\
       item_event (join Demo.base ["secret"%string])
       = sub_item_event Demo.is_dir (join Demo.base [n; m]) /\
       join Demo.base ["secret"%string] = join Demo.base [n; m]).
Proof.
  apply (summary_entries Demo.is_dir Demo.listdir Demo.base).
  - by_compute.
  - reflexivity.
Defined.

(** X13: the summary's exclusion set is coarser than the filter: among the
    entries of a directory, every directory with a name that passes the
    filter is selected for the summary. *)
Theorem filtered_directory_is_selected (is_dir : Path -> bool)
    (all : list Path) (item : Path) :
  item ∈ all -> tail item <> [] ->
  is_dir item = true -> should_include item = true ->
  item ∈ select_items is_dir all.
Proof.
  intros Hin Htail Hdir Hincl. apply select_items_spec.
  split; [done|]. split; [done|].
  intros Hex%summary_exclude_dirs_coarser.
  apply should_include_true in Hincl as (Hparts & _).
  apply (Hparts (name item)); [|done].
  assert (name item ∈ tail item) as Hname.
  { unfold name. destruct (tail item) as [|x tl _] using rev_ind; [done|].
    rewrite last_last, elem_of_app, list_elem_of_singleton. by right. }
  unfold parts. case_decide; [done | by right].
Qed.

Lemma filtered_directory_is_selected_witness :
  join Demo.base ["src"%string]
  ∈ select_items Demo.is_dir
      (children Demo.base
         ["src"; "b"; "README.md"; "secret"; "a"; "node_modules"]%string).
Proof.
  apply filtered_directory_is_selected.
  - by_compute.
  - discriminate.
  - reflexivity.
  - vm_compute. reflexivity.
Defined.

(** * The entry point *)



Section SummaryHeaders.
Variable is_dir : Path -> bool.
Variable listdir : Path -> exn + list string.

Lemma header_lines_app (tr1 tr2 : list event) :
  header_lines (tr1 ++ tr2) = header_lines tr1 ++ header_lines tr2.
Proof. apply omap_app. Qed.

Lemma sub_item_not_header (x p : Path) : sub_item_event is_dir x <> item_event p.
Proof.
  unfold sub_item_event, item_event. destruct (is_dir x); [|done].
  intros H. by injection H.
Qed.

Lemma header_lines_sub_items (l : list Path) :
  header_lines (sub_item_event is_dir <$> l) = [].
Proof.
  induction l as [|x l IH]; [done|].
  change (header_lines ([sub_item_event is_dir x] ++ (sub_item_event is_dir <$> l))
          = []).
  rewrite header_lines_app, IH, app_nil_r.
  pose proof (sub_item_not_header x) as Hne.
  unfold header_lines; simpl.
  destruct (sub_item_event is_dir x) as [t|q t|q t]; [done| |done].
  by rewrite decide_False.
Qed.

Lemma header_lines_show_item (item : Path) :
  (forall m, listdir item <> inl (Exception m)) ->
  exists rest,
    show_item is_dir listdir item = (item_event item :: rest, Returned tt) /\
    header_lines rest = [].
Proof.
  intros Hok. destruct (listdir item) as [[msg|msg]|ns] eqn:Hls.
  - rewrite (show_item_denied _ _ _ _ Hls). eauto.
  - by destruct (Hok msg).
  - rewrite (show_item_listed _ _ _ _ Hls). eexists. split; [done|].
    apply header_lines_sub_items.
Qed.

Lemma header_lines_for_each (items : list Path) :
  Forall (fun it => forall m, listdir it <> inl (Exception m)) items ->
  exists tr,
    for_each items (show_item is_dir listdir) = (tr, Returned tt) /\
    header_lines tr = items.
Proof.
  induction 1 as [|item items Hok _ (tr & Hloop & Hhead)]; [by exists []|].
  destruct (header_lines_show_item item Hok) as (rest & Hitem & Hrest).
  exists ((item_event item :: rest) ++ tr). split.
  - simpl. by rewrite (bind_returned _ _ _ _ Hitem), Hloop.
  - change (item_event item :: rest) with ([item_event item] ++ rest).
    rewrite !header_lines_app, Hhead, Hrest.
    unfold header_lines, item_event; simpl.
    by rewrite decide_True.
Qed.

End SummaryHeaders.

(** X15: when the base directory can be listed and no listing of a selected
    subdirectory raises an exception other than a permission error, the
    headers of the summary are exactly the selected subdirectories, each
    once, in alphabetical order: an unreadable subdirectory hides no other
    one. *)
Theorem summary_headers (is_dir : Path -> bool)
    (listdir : Path -> exn + list string) (base_path : Path)
    (names : list string) :
  listdir base_path = inr names ->
  Forall (fun it => forall m, listdir it <> inl (Exception m))
         (select_items is_dir (children base_path names)) ->
  header_lines (show_summary is_dir listdir base_path).1
  = sorted name (select_items is_dir (children base_path names)).
Proof.
  intros Hls Hok. rewrite (show_summary_listed _ _ _ _ Hls). cbv zeta.
  rewrite <- (sorted_perm name) in Hok.
  destruct (header_lines_for_each is_dir listdir _ Hok) as (tr & Hloop & Hhead).
  destruct (sorted name (select_items is_dir (children base_path names)))
    as [|item0 items0] eqn:Hitems; [done|].
  rewrite Hloop. simpl. exact Hhead.
Qed.

Lemma summary_headers_witness :
  header_lines (show_summary Demo.is_dir Demo.listdir Demo.base).1
  = [ join Demo.base ["a"%string]; join Demo.base ["b"%string];
      join Demo.base ["secret"%string]; join Demo.base ["src"%string] ].
Proof.
  rewrite (summary_headers Demo.is_dir Demo.listdir Demo.base
             ["src"; "b"; "README.md"; "secret"; "a"; "node_modules"]%string).
  - vm_compute. reflexivity.
  - reflexivity.
  - assert (select_items Demo.is_dir
              (children Demo.base
                 ["src"; "b"; "README.md"; "secret"; "a"; "node_modules"]%string)
            = [ join Demo.base ["src"%string]; join Demo.base ["b"%string];
                join Demo.base ["secret"%string]; join Demo.base ["a"%string] ])
      as -> by (vm_compute; reflexivity).
    repeat constructor; intros m; vm_compute; discriminate.
Defined.
